(** * ABNMF: augmented binary non-negative matrix factorization

    A shallow embedding of [src/matrix_fact/abnmf.py].

    - numpy's two-dimensional arrays are records of a shape and a list of
      rows; the array operations the class uses ([np.dot], [.T], [**],
      scalar broadcasting, [*=], assignment through [np.ix_]) are written
      over them.  The engine only ever combines arrays whose shapes agree
      (data is D x N, W is D x K, H is K x N); numpy's behaviour on arrays
      whose shapes do not agree (a ValueError, or broadcasting along an
      axis of length one) is not part of the model, and the theorems that
      depend on it assume [wf_state].
    - the scalar arithmetic is an interface ([Arith]): every structural
      property is proved for an arbitrary instance, with the operations in
      the order in which the source writes them.  The arithmetic of the
      program is the instance [binary64_arith] (IEEE 754 double precision,
      with its rounding, overflow to infinity and NaN); [Qc_arith] is the
      exact rational arithmetic of the specification's formulas.
    - Python exceptions are the values [Raise e] of a result type.  A
      raised exception ends the call; the object as it was left by the
      aborted call is not exposed.
    - [MatrixFactBase] (the constructor of the attributes shared by all
      factorizations and the iteration loop) is not part of the source
      file; its two methods are modelled from the specification. *)

From Stdlib Require Import List ZArith QArith Qcanon Lia Bool Floats.
Import ListNotations.

Set Implicit Arguments.

Local Close Scope Qc_scope.
Local Close Scope Q_scope.
Local Open Scope nat_scope.

(** ** Exceptions *)

Inductive exn : Type :=
| AssertionError
| ZeroDivisionError
| AttributeError.

Inductive result (A : Type) : Type :=
| Ok (a : A)
| Raise (e : exn).

Arguments Ok {A} a.
Arguments Raise {A} e.

Definition bind {A B : Type} (r : result A) (k : A -> result B) : result B :=
  match r with
  | Ok a => k a
  | Raise e => Raise e
  end.

Definition fmap {A B : Type} (f : A -> B) (r : result A) : result B :=
  match r with
  | Ok a => Ok (f a)
  | Raise e => Raise e
  end.

Notation "x <- r ;; k" := (bind r (fun x => k))
  (at level 61, r at next level, right associativity).

(** [assert c]: Python's [assert] statement. *)
Definition assert (c : bool) : result unit :=
  if c then Ok tt else Raise AssertionError.

(** [getattr o]: reading an attribute that may not have been set yet. *)
Definition getattr {A : Type} (o : option A) : result A :=
  match o with
  | Some a => Ok a
  | None => Raise AttributeError
  end.

(** ** Scalar arithmetic *)

(** The operations on array entries that the source uses.  [lit q] is the
    scalar a numeric literal (or an integer converted to a scalar) denotes;
    [pow x n] is [x ** n]. *)
Class Arith (F : Type) : Type := {
  lit : Q -> F;
  add : F -> F -> F;
  mul : F -> F -> F;
  div : F -> F -> F;
  pow : F -> nat -> F
}.

(** Python's [range(a, b)]. *)
Definition range (a b : Z) : list Z :=
  map (fun i => (a + Z.of_nat i)%Z) (seq 0 (Z.to_nat (b - a))).

(** [index_of i l]: the position at which the index list [l] names [i]. *)
Fixpoint index_of (i : nat) (l : list Z) : option nat :=
  match l with
  | [] => None
  | z :: l' =>
      if (z =? Z.of_nat i)%Z then Some 0
      else option_map S (index_of i l')
  end.

(** Rows of an [n] x [m] array with entry [f i j] at position [(i, j)]. *)
Definition tabulate {F : Type} (n m : nat) (f : nat -> nat -> F) : list (list F) :=
  map (fun i => map (fun j => f i j) (seq 0 m)) (seq 0 n).

Section Engine.

Context {F : Type} {A : Arith F}.

(** *** Arrays *)

Record ndarray : Type := mk_ndarray {
  shape : nat * nat;
  rows : list (list F)
}.

Definition nrows (M : ndarray) : nat := fst (shape M).
Definition ncols (M : ndarray) : nat := snd (shape M).

Definition zero : F := lit 0%Q.

(** [get M i j] is [M[i, j]]. *)
Definition get (M : ndarray) (i j : nat) : F :=
  nth j (nth i (rows M) []) zero.

Definition array (n m : nat) (f : nat -> nat -> F) : ndarray :=
  mk_ndarray (n, m) (tabulate n m f).

(** The rows of an array agree with its shape. *)
Definition wf_ndarray (M : ndarray) : Prop :=
  length (rows M) = nrows M /\
  Forall (fun r => length r = ncols M) (rows M).

(** [psum n f] is [f 0 + f 1 + ... + f (n-1)], accumulated from the left. *)
Definition psum (n : nat) (f : nat -> F) : F :=
  fold_left add (map f (seq 0 n)) zero.

(** [M.T] *)
Definition T (M : ndarray) : ndarray :=
  array (ncols M) (nrows M) (fun i j => get M j i).

(** [np.dot(M1, M2)] *)
Definition dot (M1 M2 : ndarray) : ndarray :=
  array (nrows M1) (ncols M2)
    (fun i j => psum (ncols M1) (fun k => mul (get M1 i k) (get M2 k j))).

(** Element-wise binary operations between arrays of one shape. *)
Definition ew (op : F -> F -> F) (M1 M2 : ndarray) : ndarray :=
  array (nrows M1) (ncols M1) (fun i j => op (get M1 i j) (get M2 i j)).

(** Element-wise operation on one array (a scalar operand is broadcast). *)
Definition ew1 (op : F -> F) (M : ndarray) : ndarray :=
  array (nrows M) (ncols M) (fun i j => op (get M i j)).

(** [M1 + M2], [M1 / M2], [c * M], [M + c], [M ** n] *)
Definition madd : ndarray -> ndarray -> ndarray := ew add.
Definition mdiv : ndarray -> ndarray -> ndarray := ew div.
Definition smul (c : F) : ndarray -> ndarray := ew1 (mul c).
Definition sadd (M : ndarray) (c : F) : ndarray := ew1 (fun x => add x c) M.
Definition mpow (M : ndarray) (n : nat) : ndarray := ew1 (fun x => pow x n) M.

(** [M *= X]: the in-place element-wise product. *)
Definition imul : ndarray -> ndarray -> ndarray := ew mul.

(** [np.ix_(rs, cs)]: the open mesh of a list of rows and a list of columns. *)
Definition ix_ (rs cs : list Z) : list Z * list Z := (rs, cs).

(** [M[idx] = V]: entry [(rs[a], cs[b])] of [M] receives [V[a, b]]. *)
Definition setitem_ix (M : ndarray) (idx : list Z * list Z) (V : ndarray) : ndarray :=
  array (nrows M) (ncols M)
    (fun i j =>
       match index_of i (fst idx), index_of j (snd idx) with
       | Some a, Some b => get V a b
       | _, _ => get M i j
       end).

(** [M[idx]]: the sub-array selected by an open mesh. *)
Definition getitem_ix (M : ndarray) (idx : list Z * list Z) : ndarray :=
  array (length (fst idx)) (length (snd idx))
    (fun a b => get M (Z.to_nat (nth a (fst idx) 0%Z)) (Z.to_nat (nth b (snd idx) 0%Z))).

(** *** The object *)

(** The attributes of an [ABNMF] instance.  [_lamb_W], [_lamb_H] and [ferr]
    do not exist until [factorize] sets them. *)
Record ABNMF : Type := mk_ABNMF {
  data : ndarray;
  _num_bases : Z;
  W : ndarray;
  H : ndarray;
  w_augments : ndarray;
  h_augments : option ndarray;
  w_augments_idx : list Z * list Z;
  _lamb_W : option F;
  _lamb_H : option F;
  ferr : option (list F)
}.

Definition set_W (st : ABNMF) (w : ndarray) : ABNMF :=
  mk_ABNMF (data st) (_num_bases st) w (H st) (w_augments st) (h_augments st)
    (w_augments_idx st) (_lamb_W st) (_lamb_H st) (ferr st).

Definition set_H (st : ABNMF) (h : ndarray) : ABNMF :=
  mk_ABNMF (data st) (_num_bases st) (W st) h (w_augments st) (h_augments st)
    (w_augments_idx st) (_lamb_W st) (_lamb_H st) (ferr st).

Definition set_lamb_W (st : ABNMF) (l : F) : ABNMF :=
  mk_ABNMF (data st) (_num_bases st) (W st) (H st) (w_augments st) (h_augments st)
    (w_augments_idx st) (Some l) (_lamb_H st) (ferr st).

Definition set_lamb_H (st : ABNMF) (l : F) : ABNMF :=
  mk_ABNMF (data st) (_num_bases st) (W st) (H st) (w_augments st) (h_augments st)
    (w_augments_idx st) (_lamb_W st) (Some l) (ferr st).

Definition set_ferr (st : ABNMF) (e : list F) : ABNMF :=
  mk_ABNMF (data st) (_num_bases st) (W st) (H st) (w_augments st) (h_augments st)
    (w_augments_idx st) (_lamb_W st) (_lamb_H st) (Some e).

Definition set_h_augments (h : option ndarray) (st : ABNMF) : ABNMF :=
  mk_ABNMF (data st) (_num_bases st) (W st) (H st) (w_augments st) h
    (w_augments_idx st) (_lamb_W st) (_lamb_H st) (ferr st).

(** *** Class constants *)

Definition _LAMB_INCREASE_W : F := lit 1.1%Q.
Definition _LAMB_INCREASE_H : F := lit 1.1%Q.

(** [10**-9] *)
Definition eps : F := lit 1e-9%Q.

(** *** Construction *)

(** Modelled from the spec: [MatrixFactBase.__init__] is not in the source
    file.  It stores [data] and [num_bases]; [W] and [H] are seeded by the
    base class before the first iteration, with values [W0] and [H0] that
    the engine does not choose. *)
Definition MatrixFactBase__init__ (data0 : ndarray) (num_bases : Z)
    (W0 H0 : ndarray) : ABNMF :=
  mk_ABNMF data0 num_bases W0 H0 (array 0 0 (fun _ _ => zero)) None
    ([], []) None None None.

(** [ABNMF.__init__(self, data, w_augments, h_augments, num_bases)] *)
Definition __init__ (data0 w_augments0 : ndarray) (h_augments0 : option ndarray)
    (num_bases : Z) (W0 H0 : ndarray) : result ABNMF :=
  let self := MatrixFactBase__init__ data0 num_bases W0 H0 in
  let S_shape := shape data0 in
  _ <- assert (fst (shape w_augments0) =? fst S_shape) ;;
  _ <- assert (Z.of_nat (snd (shape w_augments0)) <=? num_bases)%Z ;;
  let m_range_w := range 0 (Z.of_nat (fst S_shape)) in
  let n_range_w := range (num_bases - Z.of_nat (snd (shape w_augments0))) num_bases in
  Ok (mk_ABNMF (data self) (_num_bases self) (W self) (H self)
        w_augments0 h_augments0 (ix_ m_range_w n_range_w)
        (_lamb_W self) (_lamb_H self) (ferr self)).

(** *** The update rules *)

(** [ABNMF._update_h(self)] *)
Definition _update_h (self : ABNMF) : result ABNMF :=
  lamb_H <- getattr (_lamb_H self) ;;
  let H1 := madd (dot (T (W self)) (data self))
                 (smul (mul (lit 3%Q) lamb_H) (mpow (H self) 2)) in
  let H2 := sadd (madd (madd (dot (dot (T (W self)) (W self)) (H self))
                             (smul (mul (lit 2%Q) lamb_H) (mpow (H self) 3)))
                       (smul lamb_H (H self)))
                 eps in
  let self := set_H self (imul (H self) (mdiv H1 H2)) in
  lamb_W <- getattr (_lamb_W self) ;;
  let self := set_lamb_W self (mul _LAMB_INCREASE_W lamb_W) in
  let self := set_lamb_H self (mul _LAMB_INCREASE_H lamb_H) in
  Ok self.

(** [ABNMF._update_w(self)] *)
Definition _update_w (self : ABNMF) : result ABNMF :=
  lamb_W <- getattr (_lamb_W self) ;;
  let W1 := madd (dot (data self) (T (H self)))
                 (smul (mul (lit 3%Q) lamb_W) (mpow (W self) 2)) in
  let W2 := sadd (madd (madd (dot (W self) (dot (H self) (T (H self))))
                             (smul (mul (lit 2%Q) lamb_W) (mpow (W self) 3)))
                       (smul lamb_W (W self)))
                 eps in
  let self := set_W self (imul (W self) (mdiv W1 W2)) in
  Ok (set_W self (setitem_ix (W self) (w_augments_idx self) (w_augments self))).

(** *** Factorization *)

(** Python's [x / n] for an integer [n]: division by zero raises. *)
Definition truediv (x : F) (n : Z) : result F :=
  if (n =? 0)%Z then Raise ZeroDivisionError
  else Ok (div x (lit (inject_Z n))).

(** One pass of the loop body: [_update_w] if [compute_w], then
    [_update_h] if [compute_h]. *)
Definition iteration (compute_w compute_h : bool) (self : ABNMF) : result ABNMF :=
  self <- (if compute_w then _update_w self else Ok self) ;;
  (if compute_h then _update_h self else Ok self).

(** Modelled from the spec: the reconstruction error [|data - W*H|] that
    [MatrixFactBase.frobenius_norm] computes is not in the source file; it
    is a function of [data], [W] and [H]. *)
Variable frobenius_norm : ndarray -> ndarray -> ndarray -> F.

(** Modelled from the spec: the loop of [MatrixFactBase.factorize], which
    is not in the source file.  It runs [n] iterations and, when
    [compute_err] is set, records the reconstruction error after each. *)
Fixpoint MatrixFactBase_loop (n : nat) (compute_w compute_h compute_err : bool)
    (self : ABNMF) (errs : list F) : result (ABNMF * list F) :=
  match n with
  | O => Ok (self, errs)
  | S n' =>
      self <- iteration compute_w compute_h self ;;
      let errs :=
        if compute_err
        then errs ++ [frobenius_norm (data self) (W self) (H self)]
        else errs in
      MatrixFactBase_loop n' compute_w compute_h compute_err self errs
  end.

(** Modelled from the spec: [MatrixFactBase.factorize], which is not in the
    source file: exactly [niter] iterations, the error sequence stored in
    [ferr] when [compute_err] is set. *)
Definition MatrixFactBase_factorize (self : ABNMF) (niter : Z)
    (compute_w compute_h show_progress compute_err : bool) : result ABNMF :=
  r <- MatrixFactBase_loop (Z.to_nat niter) compute_w compute_h compute_err self [] ;;
  Ok (if compute_err then set_ferr (fst r) (snd r) else fst r).

(** [ABNMF.factorize(self, niter, compute_w, compute_h, show_progress,
    compute_err)] *)
Definition factorize (self : ABNMF) (niter : Z)
    (compute_w compute_h show_progress compute_err : bool) : result ABNMF :=
  l <- truediv (lit 1%Q) niter ;;
  let self := set_lamb_W self l in
  l <- truediv (lit 1%Q) niter ;;
  let self := set_lamb_H self l in
  MatrixFactBase_factorize self niter compute_w compute_h show_progress compute_err.

(** *** Sequences of update calls *)

Inductive step : Type :=
| UpdateW
| UpdateH.

Definition do_step (s : step) (self : ABNMF) : result ABNMF :=
  match s with
  | UpdateW => _update_w self
  | UpdateH => _update_h self
  end.

Fixpoint run (ss : list step) (self : ABNMF) : result ABNMF :=
  match ss with
  | [] => Ok self
  | s :: ss' => self <- do_step s self ;; run ss' self
  end.

Definition is_UpdateH (s : step) : bool :=
  match s with UpdateH => true | UpdateW => false end.

Definition is_UpdateW (s : step) : bool :=
  match s with UpdateW => true | UpdateH => false end.

(** The calls one iteration makes, and the calls [n] iterations make. *)
Definition calls (compute_w compute_h : bool) : list step :=
  (if compute_w then [UpdateW] else []) ++ (if compute_h then [UpdateH] else []).

Fixpoint schedule (n : nat) (compute_w compute_h : bool) : list step :=
  match n with
  | O => []
  | S n' => calls compute_w compute_h ++ schedule n' compute_w compute_h
  end.

(** *** Shape-consistent objects *)

(** The shapes the engine works with: [data] is D x N, [W] is D x K, [H] is
    K x N, [w_augments] is D x A_w with A_w <= K, and [w_augments_idx] is
    the mesh the constructor computes. *)
Definition wf_state (st : ABNMF) : Prop :=
  wf_ndarray (data st) /\ wf_ndarray (W st) /\ wf_ndarray (H st) /\
  wf_ndarray (w_augments st) /\
  nrows (W st) = nrows (data st) /\
  shape (H st) = (ncols (W st), ncols (data st)) /\
  _num_bases st = Z.of_nat (ncols (W st)) /\
  nrows (w_augments st) = nrows (data st) /\
  ncols (w_augments st) <= ncols (W st) /\
  w_augments_idx st =
    ix_ (range 0 (Z.of_nat (nrows (data st))))
        (range (_num_bases st - Z.of_nat (ncols (w_augments st))) (_num_bases st)).

(** The attributes no update rule assigns, and the shapes of [W] and [H]. *)
Definition kept (st st' : ABNMF) : Prop :=
  data st' = data st /\ _num_bases st' = _num_bases st /\
  w_augments st' = w_augments st /\ h_augments st' = h_augments st /\
  w_augments_idx st' = w_augments_idx st /\ ferr st' = ferr st /\
  shape (W st') = shape (W st) /\ shape (H st') = shape (H st) /\
  (wf_ndarray (W st) -> wf_ndarray (W st')) /\
  (wf_ndarray (H st) -> wf_ndarray (H st')).

(** The number of H updates among a sequence of calls. *)
Definition count_H (ss : list step) : nat := length (filter is_UpdateH ss).

(** The block of [W] that the mesh selects holds the augments. *)
Definition block_ok (st : ABNMF) : Prop :=
  getitem_ix (W st) (w_augments_idx st) = w_augments st.

(** The factors and the multipliers of an object. *)
Definition factors (st : ABNMF) : ndarray * ndarray * option F * option F :=
  (W st, H st, _lamb_W st, _lamb_H st).

(** *** The update rules as the specification writes them *)

(** Entry [(i, j)] of [W^T * data + 3 * lamb * H^2]. *)
Definition H_numerator (data0 W0 H0 : ndarray) (lamb : F) (i j : nat) : F :=
  add (psum (nrows W0) (fun d => mul (get W0 d i) (get data0 d j)))
      (mul (mul (lit 3%Q) lamb) (pow (get H0 i j) 2)).

(** Entry [(i, j)] of [W^T * W * H + 2 * lamb * H^3 + lamb * H + 1e-9]. *)
Definition H_denominator (W0 H0 : ndarray) (lamb : F) (i j : nat) : F :=
  add (add (add (psum (ncols W0)
                   (fun l => mul (psum (nrows W0)
                                    (fun d => mul (get W0 d i) (get W0 d l)))
                                 (get H0 l j)))
                (mul (mul (lit 2%Q) lamb) (pow (get H0 i j) 3)))
           (mul lamb (get H0 i j)))
      (lit 1e-9%Q).

(** [H (.) Numerator / Denominator] *)
Definition spec_updateH (data0 W0 H0 : ndarray) (lamb : F) : ndarray :=
  array (nrows H0) (ncols H0)
    (fun i j => mul (get H0 i j)
                    (div (H_numerator data0 W0 H0 lamb i j)
                         (H_denominator W0 H0 lamb i j))).

(** Entry [(i, j)] of [data * H^T + 3 * lamb * W^2]. *)
Definition W_numerator (data0 W0 H0 : ndarray) (lamb : F) (i j : nat) : F :=
  add (psum (ncols data0) (fun n => mul (get data0 i n) (get H0 j n)))
      (mul (mul (lit 3%Q) lamb) (pow (get W0 i j) 2)).

(** Entry [(i, j)] of [W * H * H^T + 2 * lamb * W^3 + lamb * W + 1e-9]. *)
Definition W_denominator (W0 H0 : ndarray) (lamb : F) (i j : nat) : F :=
  add (add (add (psum (ncols W0)
                   (fun l => mul (get W0 i l)
                                 (psum (ncols H0)
                                    (fun n => mul (get H0 l n) (get H0 j n)))))
                (mul (mul (lit 2%Q) lamb) (pow (get W0 i j) 3)))
           (mul lamb (get W0 i j)))
      (lit 1e-9%Q).

(** [W (.) Numerator / Denominator], then the block at rows [0, D) and
    columns [K - A_w, K) replaced by [wAugments]. *)
Definition spec_updateW (data0 W0 H0 wAugments : ndarray) (lamb : F) : ndarray :=
  let D := nrows W0 in
  let K := ncols W0 in
  let A_w := ncols wAugments in
  array D K
    (fun i j =>
       if (K - A_w <=? j) && (j <? K)
       then get wAugments i (j - (K - A_w))
       else mul (get W0 i j)
                (div (W_numerator data0 W0 H0 lamb i j)
                     (W_denominator W0 H0 lamb i j))).

End Engine.

(** ** Exact rational arithmetic *)

#[export] Instance Qc_arith : Arith Qc := {|
  lit := Q2Qc;
  add := Qcplus;
  mul := Qcmult;
  div := Qcdiv;
  pow := Qcpower
|}.

(** [np.array(l)] for a list of rows [l]. *)
Definition of_rows {F : Type} {A : Arith F} (l : list (list F)) : ndarray :=
  mk_ndarray (length l, length (hd [] l)) l.

(** Every entry of an array satisfies [P]. *)
Definition all_entries {F : Type} {A : Arith F} (P : F -> Prop) (M : ndarray) : Prop :=
  Forall (Forall P) (rows M).

(** ** The scenario of the specification

    data = [[1,0,1],[0,1,1]], K = 2, and a 2 x 1 block of augments that
    fixes the last column of W to (0, 1). *)
Module Scenario.

Definition q (a : Z) (b : positive) : Qc := Q2Qc (a # b).

Definition data0 : ndarray :=
  of_rows [[q 1 1; q 0 1; q 1 1]; [q 0 1; q 1 1; q 1 1]].

Definition w_augments0 : ndarray := of_rows [[q 0 1]; [q 1 1]].

Definition W0 : ndarray := of_rows [[q 1 2; q 1 3]; [q 1 4; q 1 5]].

Definition H0 : ndarray :=
  of_rows [[q 1 2; q 1 3; q 1 4]; [q 1 5; q 1 6; q 1 7]].

(** The object right after construction. *)
Definition fresh : ABNMF :=
  mk_ABNMF data0 2 W0 H0 w_augments0 None
    (ix_ (range 0 2) (range 1 2)) None None None.

(** The object inside a [factorize(niter=5)] call. *)
Definition running : ABNMF :=
  set_lamb_H (set_lamb_W fresh (q 1 5)) (q 1 5).

(** A stand-in for the reconstruction error, which the base class owns. *)
Definition norm0 (d w h : @ndarray Qc) : Qc := q 0 1.

(** A 1 x 1 block of augments, whose row count is not that of [data0]. *)
Definition short_augments : ndarray := of_rows [[q 1 1]].

(** The entries of an array, as fractions. *)
Definition entries (M : @ndarray Qc) : list (list Q) := map (map this) (rows M).

End Scenario.

(** ** Machine arithmetic: IEEE 754 binary64 *)

(** A Python integer converted to a float (rounded to nearest, ties to
    even). *)
Definition Z2float (z : Z) : float :=
  SF2Prim (binary_normalize prec emax z 0 false).

(** The float that a literal with the decimal value [q] denotes, and the
    float an integer is converted to: numerator and denominator are powers
    of ten or small integers, exactly representable, and their quotient is
    rounded once. *)
Definition float_lit (q : Q) : float :=
  PrimFloat.div (Z2float (Qnum q)) (Z2float (Zpos (Qden q))).

(** [x ** n].  For [n = 2] numpy computes [x * x]; for [n = 3] it calls the
    C library's [pow], which agrees with [x * (x * x)] in sign, zeros,
    infinities and NaN, and in value up to the rounding of the last
    digit. *)
Fixpoint float_pow (x : float) (n : nat) : float :=
  match n with
  | O => float_lit 1%Q
  | S n' => PrimFloat.mul x (float_pow x n')
  end.

#[export] Instance binary64_arith : Arith float := {|
  lit := float_lit;
  add := PrimFloat.add;
  mul := PrimFloat.mul;
  div := PrimFloat.div;
  pow := float_pow
|}.


Definition nonneg_or_nan (x : float) : Prop :=
  (0 <=? x)%float = true \/ is_nan x = true.

(** A float that is zero (of either sign), or NaN. *)
Definition zero_or_nan (x : float) : Prop :=
  (x =? 0)%float = true \/ is_nan x = true.

(** The same classes on the specification of binary64, and the class of
    the floats whose sign bit is clear (or that are NaN). *)
Definition sf_nonneg (x : spec_float) : bool :=
  match x with
  | S754_nan => true
  | S754_zero _ => true
  | S754_infinity s => negb s
  | S754_finite s _ _ => negb s
  end.

Definition sf_unsigned (x : spec_float) : bool :=
  match x with
  | S754_nan => true
  | S754_zero s => negb s
  | S754_infinity s => negb s
  | S754_finite s _ _ => negb s
  end.

Definition sf_zero_or_nan (x : spec_float) : bool :=
  match x with
  | S754_nan => true
  | S754_zero _ => true
  | _ => false
  end.

Definition unsigned_or_nan (x : float) : Prop :=
  sf_unsigned (Prim2SF x) = true.

(** Every entry of data, of both factors and of the augments, and both
    multipliers, satisfy [P]. *)
Definition closed_state {F : Type} {A : Arith F} (P : F -> Prop)
    (st : ABNMF) : Prop :=
  all_entries P (data st) /\ all_entries P (W st) /\
  all_entries P (H st) /\ all_entries P (w_augments st) /\
  exists lw lh, _lamb_W st = Some lw /\ _lamb_H st = Some lh /\ P lw /\ P lh.

(** The entries of [H], and the entries of [W] outside the augmented
    columns, that are in the class [L] in [st] are in [L] in [st']. *)
Definition locked {F : Type} {A : Arith F} (L : F -> Prop)
    (st st' : ABNMF) : Prop :=
  (forall i j, i < nrows (H st) -> j < ncols (H st) ->
     L (get (H st) i j) -> L (get (H st') i j)) /\
  (forall i j, i < nrows (W st) ->
     j < ncols (W st) - ncols (w_augments st) ->
     L (get (W st) i j) -> L (get (W st') i j)).

(** ** The scenario of the specification, in binary64 *)
Module Machine.

Definition fl (a : Z) (b : positive) : float := float_lit (a # b).

Definition data0 : ndarray :=
  of_rows [[fl 1 1; fl 0 1; fl 1 1]; [fl 0 1; fl 1 1; fl 1 1]].

Definition w_augments0 : ndarray := of_rows [[fl 0 1]; [fl 1 1]].

Definition W0 : ndarray := of_rows [[fl 1 2; fl 1 3]; [fl 1 4; fl 1 5]].

Definition H0 : ndarray :=
  of_rows [[fl 1 2; fl 1 3; fl 1 4]; [fl 1 5; fl 1 6; fl 1 7]].

Definition fresh : ABNMF :=
  mk_ABNMF data0 2 W0 H0 w_augments0 None
    (ix_ (range 0 2) (range 1 2)) None None None.

(** The object inside a [factorize(niter=5)] call. *)
Definition running : ABNMF :=
  set_lamb_H (set_lamb_W fresh (fl 1 5)) (fl 1 5).


(** A stand-in for the reconstruction error, which the base class owns. *)
Definition norm0 (d w h : @ndarray float) : float := fl 0 1.


(** The scenario with some coefficients and one basis entry at zero. *)
Definition sparse : ABNMF :=
  mk_ABNMF data0 2 (of_rows [[fl 0 1; fl 1 3]; [fl 1 4; fl 1 5]])
    (of_rows [[fl 1 2; fl 0 1; fl 1 4]; [fl 0 1; fl 1 6; fl 0 1]])
    w_augments0 None
    (ix_ (range 0 2) (range 1 2)) (Some (fl 1 5)) (Some (fl 1 5)) None.

End Machine.

(** ** Further scenarios *)

Module Extremes.

(** Augments for every column of the scenario's W. *)
Definition full_augments : @ndarray Qc :=
  of_rows [[Scenario.q 1 1; Scenario.q 0 1]; [Scenario.q 0 1; Scenario.q 1 1]].

Definition all_fixed : @ABNMF Qc :=
  mk_ABNMF Scenario.data0 2 Scenario.W0 Scenario.H0 full_augments None
    (ix_ (range 0 2) (range 0 2))
    (Some (Scenario.q 1 5)) (Some (Scenario.q 1 5)) None.

(** Augments with no column. *)
Definition no_augments : @ndarray Qc := mk_ndarray (2, 0) [[]; []].

Definition none_fixed : @ABNMF Qc :=
  mk_ABNMF Scenario.data0 2 Scenario.W0 Scenario.H0 no_augments None
    (ix_ (range 0 2) (range 2 2))
    (Some (Scenario.q 1 5)) (Some (Scenario.q 1 5)) None.

(** A second data set with one sample only, which is the first sample of
    the scenario, and coefficients for it. *)
Definition one_sample : @ndarray Qc := of_rows [[Scenario.q 1 1]; [Scenario.q 0 1]].

Definition one_sample_H : @ndarray Qc := of_rows [[Scenario.q 1 2]; [Scenario.q 1 5]].

Definition single : @ABNMF Qc :=
  mk_ABNMF one_sample 2 Scenario.W0 one_sample_H Scenario.w_augments0 None
    (ix_ (range 0 2) (range 1 2))
    (Some (Scenario.q 1 7)) (Some (Scenario.q 1 5)) None.

(** A second data set with one feature only, which is the first feature
    of the scenario, with its row of W and its augment. *)
Definition one_feature : @ndarray Qc :=
  of_rows [[Scenario.q 1 1; Scenario.q 0 1; Scenario.q 1 1]].

Definition one_feature_W : @ndarray Qc := of_rows [[Scenario.q 1 2; Scenario.q 1 3]].

Definition one_feature_augments : @ndarray Qc := of_rows [[Scenario.q 0 1]].

Definition narrow : @ABNMF Qc :=
  mk_ABNMF one_feature 2 one_feature_W Scenario.H0 one_feature_augments None
    (ix_ (range 0 1) (range 1 2))
    (Some (Scenario.q 1 5)) (Some (Scenario.q 1 3)) None.

End Extremes.

(** ** Lists and arrays *)

Lemma nth_map_seq {B : Type} (g : nat -> B) (n i : nat) (d : B) :
  i < n -> nth i (map g (seq 0 n)) d = g i.
Proof.
  intros Hi.
  rewrite (nth_indep _ d (g 0)) by (rewrite length_map, length_seq; exact Hi).
  rewrite map_nth, seq_nth by exact Hi.
  reflexivity.
Qed.

Lemma map_seq_ext {B : Type} (f g : nat -> B) (n : nat) :
  (forall i, i < n -> f i = g i) -> map f (seq 0 n) = map g (seq 0 n).
Proof.
  intros Hfg. apply map_ext_in. intros i Hi.
  apply in_seq in Hi. apply Hfg. lia.
Qed.

Lemma tabulate_ext {B : Type} (n m : nat) (f g : nat -> nat -> B) :
  (forall i j, i < n -> j < m -> f i j = g i j) ->
  tabulate n m f = tabulate n m g.
Proof.
  intros Hfg. unfold tabulate.
  apply map_seq_ext. intros i Hi.
  apply map_seq_ext. intros j Hj. now apply Hfg.
Qed.

Lemma length_tabulate {B : Type} (n m : nat) (f : nat -> nat -> B) :
  length (tabulate n m f) = n.
Proof. unfold tabulate. now rewrite length_map, length_seq. Qed.

Lemma Forall_length_tabulate {B : Type} (n m : nat) (f : nat -> nat -> B) :
  Forall (fun r => length r = m) (tabulate n m f).
Proof.
  unfold tabulate. apply Forall_forall. intros r Hr.
  apply in_map_iff in Hr. destruct Hr as [i [<- _]].
  now rewrite length_map, length_seq.
Qed.

Lemma list_eq_nth {B : Type} (d : B) (l1 l2 : list B) :
  length l1 = length l2 ->
  (forall i, i < length l1 -> nth i l1 d = nth i l2 d) ->
  l1 = l2.
Proof.
  revert l2. induction l1 as [|x l1 IH]; intros [|y l2] Hlen Hnth;
    simpl in Hlen; try discriminate; [reflexivity|].
  f_equal.
  - apply (Hnth 0). simpl. lia.
  - apply IH; [lia|]. intros i Hi. apply (Hnth (S i)). simpl. lia.
Qed.

Lemma index_of_map_seq (n a j : nat) :
  index_of j (map (fun i => (Z.of_nat a + Z.of_nat i)%Z) (seq 0 n)) =
  if (a <=? j) && (j <? a + n) then Some (j - a) else None.
Proof.
  revert a. induction n as [|n IH]; intros a; simpl.
  - destruct (Nat.leb_spec a j); destruct (Nat.ltb_spec j (a + 0));
      simpl; try reflexivity; lia.
  - rewrite Z.add_0_r.
    destruct (Z.eqb_spec (Z.of_nat a) (Z.of_nat j)) as [Heq|Hne].
    + apply Nat2Z.inj in Heq. subst j.
      rewrite Nat.leb_refl, Nat.sub_diag.
      destruct (Nat.ltb_spec a (a + S n)); [reflexivity|lia].
    + rewrite <- seq_shift, map_map.
      rewrite (map_ext _ (fun i => (Z.of_nat (S a) + Z.of_nat i)%Z))
        by (intros; lia).
      rewrite IH.
      assert (a <> j) by (intros ->; now apply Hne).
      destruct (Nat.leb_spec (S a) j); destruct (Nat.leb_spec a j);
        destruct (Nat.ltb_spec j (S a + n)); destruct (Nat.ltb_spec j (a + S n));
        simpl; try lia; try reflexivity.
      f_equal. lia.
Qed.

Lemma index_of_range (a b j : nat) :
  a <= b ->
  index_of j (range (Z.of_nat a) (Z.of_nat b)) =
  if (a <=? j) && (j <? b) then Some (j - a) else None.
Proof.
  intros Hab. unfold range. rewrite index_of_map_seq.
  replace (a + Z.to_nat (Z.of_nat b - Z.of_nat a)) with b by lia.
  reflexivity.
Qed.

Lemma length_range (a b : nat) :
  length (range (Z.of_nat a) (Z.of_nat b)) = b - a.
Proof. unfold range. rewrite length_map, length_seq. lia. Qed.

Lemma nth_range (a b i : nat) :
  i < b - a -> nth i (range (Z.of_nat a) (Z.of_nat b)) 0%Z = Z.of_nat (a + i).
Proof.
  intros Hi. unfold range. rewrite nth_map_seq by lia. lia.
Qed.

Ltac splits := repeat match goal with |- _ /\ _ => split end.

(** Side conditions on indices: the shape of every operation is computed. *)
Ltac shapes :=
  unfold madd, mdiv, smul, sadd, mpow, imul, ew, ew1, dot, T, setitem_ix,
    nrows, ncols in *;
  simpl in *; lia.

Section EngineProperties.

Context {F : Type} {A : Arith F}.

Implicit Types (M V : @ndarray F) (st : @ABNMF F).

Lemma get_array (n m : nat) (f : nat -> nat -> F) (i j : nat) :
  i < n -> j < m -> get (array n m f) i j = f i j.
Proof.
  intros Hi Hj. unfold get, array, tabulate; simpl.
  rewrite (nth_map_seq _ _ Hi). now rewrite (nth_map_seq _ _ Hj).
Qed.

Lemma array_ext (n m : nat) (f g : nat -> nat -> F) :
  (forall i j, i < n -> j < m -> f i j = g i j) -> array n m f = array n m g.
Proof. intros Hfg. unfold array. f_equal. now apply tabulate_ext. Qed.

Lemma wf_array (n m : nat) (f : nat -> nat -> F) : wf_ndarray (array n m f).
Proof.
  split; simpl.
  - apply length_tabulate.
  - apply Forall_length_tabulate.
Qed.

(** A well-formed array is determined by its shape and its entries. *)
Lemma wf_ndarray_eq M : wf_ndarray M -> M = array (nrows M) (ncols M) (get M).
Proof.
  destruct M as [[n m] rs]. unfold wf_ndarray, nrows, ncols, array; simpl.
  intros [Hlen Hrows]. f_equal.
  apply (list_eq_nth []).
  - now rewrite length_tabulate.
  - intros i Hi. unfold tabulate.
    rewrite nth_map_seq by lia.
    assert (Hr : length (nth i rs []) = m).
    { rewrite Forall_forall in Hrows. apply Hrows. apply nth_In. exact Hi. }
    apply (list_eq_nth zero).
    + now rewrite length_map, length_seq.
    + intros j Hj. rewrite nth_map_seq by lia. reflexivity.
Qed.

Lemma psum_ext (n : nat) (f g : nat -> F) :
  (forall k, k < n -> f k = g k) -> psum n f = psum n g.
Proof. intros Hfg. unfold psum. f_equal. now apply map_seq_ext. Qed.

Lemma get_T M i j :
  i < ncols M -> j < nrows M -> get (T M) i j = get M j i.
Proof. intros. unfold T. now rewrite get_array. Qed.

Lemma get_dot M1 M2 i j :
  i < nrows M1 -> j < ncols M2 ->
  get (dot M1 M2) i j = psum (ncols M1) (fun k => mul (get M1 i k) (get M2 k j)).
Proof. intros. unfold dot. now rewrite get_array. Qed.

Lemma get_ew (op : F -> F -> F) M1 M2 i j :
  i < nrows M1 -> j < ncols M1 ->
  get (ew op M1 M2) i j = op (get M1 i j) (get M2 i j).
Proof. intros. unfold ew. now rewrite get_array. Qed.

Lemma get_ew1 (op : F -> F) M i j :
  i < nrows M -> j < ncols M -> get (ew1 op M) i j = op (get M i j).
Proof. intros. unfold ew1. now rewrite get_array. Qed.

Lemma get_setitem_ix M idx V i j :
  i < nrows M -> j < ncols M ->
  get (setitem_ix M idx V) i j =
  match index_of i (fst idx), index_of j (snd idx) with
  | Some a, Some b => get V a b
  | _, _ => get M i j
  end.
Proof. intros. unfold setitem_ix. now rewrite get_array. Qed.

(** The multiplicative part of the H update, entry by entry. *)
Lemma H_rule_entries (data0 W0 H0 : @ndarray F) (lamb : F) :
  nrows W0 = nrows data0 ->
  shape H0 = (ncols W0, ncols data0) ->
  imul H0
    (mdiv (madd (dot (T W0) data0) (smul (mul (lit 3%Q) lamb) (mpow H0 2)))
          (sadd (madd (madd (dot (dot (T W0) W0) H0)
                            (smul (mul (lit 2%Q) lamb) (mpow H0 3)))
                      (smul lamb H0))
                eps))
  = spec_updateH data0 W0 H0 lamb.
Proof.
  intros HD HH.
  assert (HK : nrows H0 = ncols W0) by (unfold nrows; now rewrite HH).
  assert (HN : ncols H0 = ncols data0) by (unfold ncols at 1; now rewrite HH).
  unfold spec_updateH, imul, ew at 1.
  apply array_ext. intros i j Hi Hj. f_equal.
  unfold mdiv. rewrite get_ew by shapes. f_equal.
  - unfold H_numerator, madd. rewrite get_ew by shapes.
    f_equal.
    + rewrite get_dot by shapes.
      replace (ncols (T W0)) with (nrows W0) by reflexivity.
      apply psum_ext. intros d Hd. now rewrite get_T by lia.
    + unfold smul, mpow. rewrite get_ew1 by shapes.
      now rewrite get_ew1 by lia.
  - unfold H_denominator, sadd, madd.
    rewrite get_ew1 by shapes.
    rewrite !get_ew by shapes.
    f_equal. f_equal; [f_equal|].
    + rewrite get_dot by shapes.
      replace (ncols (dot (T W0) W0)) with (ncols W0) by reflexivity.
      apply psum_ext. intros l Hl. f_equal.
      rewrite get_dot by shapes.
      replace (ncols (T W0)) with (nrows W0) by reflexivity.
      apply psum_ext. intros d Hd. now rewrite get_T by lia.
    + unfold smul, mpow. rewrite get_ew1 by shapes.
      now rewrite get_ew1 by lia.
    + unfold smul. now rewrite get_ew1 by lia.
Qed.

(** The multiplicative part of the W update, entry by entry. *)
Lemma W_rule_entries (data0 W0 H0 : @ndarray F) (lamb : F) (i j : nat) :
  nrows W0 = nrows data0 ->
  shape H0 = (ncols W0, ncols data0) ->
  i < nrows W0 -> j < ncols W0 ->
  get (imul W0
         (mdiv (madd (dot data0 (T H0)) (smul (mul (lit 3%Q) lamb) (mpow W0 2)))
               (sadd (madd (madd (dot W0 (dot H0 (T H0)))
                                 (smul (mul (lit 2%Q) lamb) (mpow W0 3)))
                           (smul lamb W0))
                     eps))) i j
  = mul (get W0 i j)
        (div (W_numerator data0 W0 H0 lamb i j) (W_denominator W0 H0 lamb i j)).
Proof.
  intros HD HH Hi Hj.
  assert (HK : nrows H0 = ncols W0) by (unfold nrows; now rewrite HH).
  assert (HN : ncols H0 = ncols data0) by (unfold ncols at 1; now rewrite HH).
  unfold imul. rewrite get_ew by lia. f_equal.
  unfold mdiv. rewrite get_ew by shapes. f_equal.
  - unfold W_numerator, madd. rewrite get_ew by shapes.
    f_equal.
    + rewrite get_dot by shapes.
      apply psum_ext. intros n Hn. now rewrite get_T by lia.
    + unfold smul, mpow. rewrite get_ew1 by shapes.
      now rewrite get_ew1 by lia.
  - unfold W_denominator, sadd, madd.
    rewrite get_ew1 by shapes.
    rewrite !get_ew by shapes.
    f_equal. f_equal; [f_equal|].
    + rewrite get_dot by shapes.
      apply psum_ext. intros l Hl. f_equal.
      rewrite get_dot by shapes.
      replace (ncols (T H0)) with (nrows H0) by reflexivity.
      apply psum_ext. intros n Hn. now rewrite get_T by lia.
    + unfold smul, mpow. rewrite get_ew1 by shapes.
      now rewrite get_ew1 by lia.
    + unfold smul. now rewrite get_ew1 by lia.
Qed.

(** *** What one update call returns *)

(** With both multipliers set, [_update_h] returns: [H] is replaced by an
    array of the same shape, both multipliers are scaled, and every other
    attribute is kept. *)
Lemma _update_h_returns st (lw lh : F) :
  _lamb_W st = Some lw -> _lamb_H st = Some lh ->
  exists h',
    shape h' = shape (H st) /\ wf_ndarray h' /\
    _update_h st =
    Ok (mk_ABNMF (data st) (_num_bases st) (W st) h' (w_augments st)
          (h_augments st) (w_augments_idx st)
          (Some (mul _LAMB_INCREASE_W lw)) (Some (mul _LAMB_INCREASE_H lh))
          (ferr st)).
Proof.
  intros Hlw Hlh. unfold _update_h. rewrite Hlh. simpl. rewrite Hlw. simpl.
  eexists. split; [|split; [|reflexivity]].
  - unfold imul, ew, array, nrows, ncols. simpl. now destruct (shape (H st)).
  - apply wf_array.
Qed.

(** With [_lamb_W] set, [_update_w] returns: [W] is replaced by an array of
    the same shape and every other attribute is kept. *)
Lemma _update_w_returns st (lw : F) :
  _lamb_W st = Some lw ->
  exists w',
    shape w' = shape (W st) /\ wf_ndarray w' /\
    _update_w st = Ok (set_W st w').
Proof.
  intros Hlw. unfold _update_w. rewrite Hlw. simpl.
  eexists. split; [|split; [|reflexivity]].
  - unfold setitem_ix, imul, ew, array, nrows, ncols. simpl.
    now destruct (shape (W st)).
  - apply wf_array.
Qed.

(** On shape-consistent objects the H update is the rule of the
    specification. *)
Lemma _update_h_spec st (lw lh : F) :
  nrows (W st) = nrows (data st) ->
  shape (H st) = (ncols (W st), ncols (data st)) ->
  _lamb_W st = Some lw -> _lamb_H st = Some lh ->
  _update_h st =
  Ok (mk_ABNMF (data st) (_num_bases st) (W st)
        (spec_updateH (data st) (W st) (H st) lh) (w_augments st)
        (h_augments st) (w_augments_idx st)
        (Some (mul _LAMB_INCREASE_W lw)) (Some (mul _LAMB_INCREASE_H lh))
        (ferr st)).
Proof.
  intros HD HH Hlw Hlh. unfold _update_h. rewrite Hlh. simpl. rewrite Hlw. simpl.
  unfold set_lamb_H, set_lamb_W, set_H. simpl.
  now rewrite (@H_rule_entries _ _ _ lh HD HH).
Qed.

(** The mesh of a shape-consistent object, over natural numbers. *)
Lemma wf_state_idx st :
  wf_state st ->
  w_augments_idx st =
  (range (Z.of_nat 0) (Z.of_nat (nrows (W st))),
   range (Z.of_nat (ncols (W st) - ncols (w_augments st))) (Z.of_nat (ncols (W st)))).
Proof.
  intros (_ & _ & _ & _ & HD & _ & HK & _ & HA & Hidx).
  rewrite Hidx, HK, HD. unfold ix_. f_equal. f_equal. lia.
Qed.

(** On shape-consistent objects the W update is the rule of the
    specification followed by the overwrite of the augmented block. *)
Lemma _update_w_spec st (lw : F) :
  wf_state st ->
  _lamb_W st = Some lw ->
  _update_w st =
  Ok (set_W st (spec_updateW (data st) (W st) (H st) (w_augments st) lw)).
Proof.
  intros Hwf Hlw.
  pose proof (wf_state_idx Hwf) as Hidx.
  destruct Hwf as (_ & _ & _ & _ & HD & HH & HK & HDa & HA & _).
  unfold _update_w. rewrite Hlw. simpl.
  unfold set_W at 1 2. simpl. unfold set_W. do 2 f_equal.
  rewrite Hidx. unfold setitem_ix, spec_updateW.
  apply array_ext. intros i j Hi Hj.
  change (nrows (imul (W st) _)) with (nrows (W st)) in Hi.
  change (ncols (imul (W st) _)) with (ncols (W st)) in Hj.
  cbn [fst snd].
  rewrite !index_of_range by lia.
  rewrite (@W_rule_entries _ _ _ lw _ _ HD HH Hi Hj).
  simpl (0 <=? i). apply Nat.ltb_lt in Hi as Hi'. rewrite Hi'. simpl andb.
  rewrite Nat.sub_0_r.
  destruct ((ncols (W st) - ncols (w_augments st) <=? j) && (j <? ncols (W st)));
    reflexivity.
Qed.

(** *** Frame of one call and of a sequence of calls *)

Lemma kept_refl st : kept st st.
Proof. unfold kept. tauto. Qed.

Lemma kept_trans st1 st2 st3 : kept st1 st2 -> kept st2 st3 -> kept st1 st3.
Proof.
  unfold kept.
  intros (a1 & a2 & a3 & a4 & a5 & a6 & a7 & a8 & a9 & a10)
         (b1 & b2 & b3 & b4 & b5 & b6 & b7 & b8 & b9 & b10).
  splits; try congruence; auto.
Qed.

Lemma kept_wf_state st st' : kept st st' -> wf_state st -> wf_state st'.
Proof.
  unfold kept, wf_state, nrows, ncols.
  intros (a1 & a2 & a3 & a4 & a5 & a6 & a7 & a8 & a9 & a10)
         (b1 & b2 & b3 & b4 & b5 & b6 & b7 & b8 & b9 & b10).
  rewrite a1, a2, a3, a5, a7, a8. splits; auto.
Qed.

Lemma do_step_returns (s : step) st (lw lh : F) :
  _lamb_W st = Some lw -> _lamb_H st = Some lh ->
  exists st',
    do_step s st = Ok st' /\ kept st st' /\
    _lamb_W st' = Some (if is_UpdateH s then mul _LAMB_INCREASE_W lw else lw) /\
    _lamb_H st' = Some (if is_UpdateH s then mul _LAMB_INCREASE_H lh else lh) /\
    (is_UpdateH s = true -> W st' = W st) /\
    (is_UpdateW s = true -> H st' = H st).
Proof.
  intros Hlw Hlh. destruct s; simpl.
  - destruct (_update_w_returns st Hlw) as (w' & Hs & Hwf & ->).
    eexists. split; [reflexivity|]. unfold kept. simpl.
    splits; auto; discriminate.
  - destruct (_update_h_returns st Hlw Hlh) as (h' & Hs & Hwf & ->).
    eexists. split; [reflexivity|]. unfold kept. simpl.
    splits; auto; discriminate.
Qed.

Lemma run_app (ss1 ss2 : list step) st :
  run (ss1 ++ ss2) st = (st' <- run ss1 st ;; run ss2 st').
Proof.
  revert st. induction ss1 as [|s ss1 IH]; intros st; simpl; [reflexivity|].
  destruct (do_step s st) as [st1|e]; simpl; [apply IH|reflexivity].
Qed.

Lemma run_returns (ss : list step) st (lw lh : F) :
  _lamb_W st = Some lw -> _lamb_H st = Some lh ->
  exists st',
    run ss st = Ok st' /\ kept st st' /\
    _lamb_W st' = Some (Nat.iter (count_H ss) (mul _LAMB_INCREASE_W) lw) /\
    _lamb_H st' = Some (Nat.iter (count_H ss) (mul _LAMB_INCREASE_H) lh).
Proof.
  revert st lw lh. induction ss as [|s ss IH]; intros st lw lh Hlw Hlh.
  - exists st. simpl. splits; auto using kept_refl.
  - destruct (do_step_returns s st Hlw Hlh) as (st1 & Hs & Hk & Hlw1 & Hlh1 & _).
    destruct (IH st1 _ _ Hlw1 Hlh1) as (st' & Hr & Hk' & Hlw' & Hlh').
    exists st'. simpl. rewrite Hs. simpl.
    split; [exact Hr|]. split; [exact (kept_trans Hk Hk')|].
    rewrite Hlw', Hlh'. unfold count_H. simpl.
    destruct s; simpl; split; try reflexivity;
      f_equal; symmetry; apply Nat.iter_succ_r.
Qed.

(** *** The augmented block *)

Lemma _update_w_block st (lw : F) :
  wf_state st -> _lamb_W st = Some lw ->
  exists st', _update_w st = Ok st' /\ block_ok st'.
Proof.
  intros Hwf Hlw. rewrite (_update_w_spec Hwf Hlw).
  eexists. split; [reflexivity|].
  pose proof (wf_state_idx Hwf) as Hidx.
  destruct Hwf as (_ & _ & _ & Hwa & HD & _ & _ & HDa & HA & _).
  unfold block_ok. simpl. rewrite Hidx.
  etransitivity; [|symmetry; exact (wf_ndarray_eq Hwa)].
  unfold getitem_ix. cbn [fst snd].
  rewrite !length_range. rewrite Nat.sub_0_r.
  replace (ncols (W st) - (ncols (W st) - ncols (w_augments st)))
    with (ncols (w_augments st)) by lia.
  replace (nrows (W st)) with (nrows (w_augments st)) at 1 by lia.
  apply array_ext. intros i b Hi Hb.
  rewrite !nth_range by lia. rewrite !Nat2Z.id. simpl (0 + i).
  unfold spec_updateW. rewrite get_array by lia.
  destruct (Nat.leb_spec (ncols (W st) - ncols (w_augments st))
              (ncols (W st) - ncols (w_augments st) + b)); [|lia].
  destruct (Nat.ltb_spec (ncols (W st) - ncols (w_augments st) + b)
              (ncols (W st))); [|lia].
  simpl. f_equal. lia.
Qed.

Lemma do_step_block (s : step) st (lw lh : F) :
  wf_state st -> _lamb_W st = Some lw -> _lamb_H st = Some lh ->
  block_ok st \/ is_UpdateW s = true ->
  exists st', do_step s st = Ok st' /\ block_ok st'.
Proof.
  intros Hwf Hlw Hlh Hb. destruct s.
  - simpl. exact (_update_w_block Hwf Hlw).
  - destruct Hb as [Hb|Hb]; [|discriminate].
    destruct (do_step_returns UpdateH st Hlw Hlh)
      as (st' & Hs & Hk & _ & _ & HW & _).
    exists st'. split; [exact Hs|].
    destruct Hk as (_ & _ & Hwa & _ & Hidx & _).
    unfold block_ok. now rewrite HW, Hidx, Hwa by reflexivity.
Qed.

Lemma run_block (ss : list step) st (lw lh : F) :
  wf_state st -> _lamb_W st = Some lw -> _lamb_H st = Some lh ->
  block_ok st \/ existsb is_UpdateW ss = true ->
  exists st', run ss st = Ok st' /\ block_ok st'.
Proof.
  revert st lw lh. induction ss as [|s ss IH]; intros st lw lh Hwf Hlw Hlh Hb.
  - destruct Hb as [Hb|Hb]; [|discriminate]. exists st. now split.
  - simpl in Hb.
    destruct (do_step_returns s st Hlw Hlh) as (st1 & Hs & Hk & Hlw1 & Hlh1 & _).
    pose proof (kept_wf_state Hk Hwf) as Hwf1.
    simpl. rewrite Hs. simpl.
    apply (IH st1 _ _ Hwf1 Hlw1 Hlh1).
    destruct (is_UpdateW s) eqn:Es.
    + left. destruct (do_step_block s Hwf Hlw Hlh (or_intror Es))
        as (st1' & Hs' & Hb'). congruence.
    + destruct Hb as [Hb|Hb]; [|now right].
      left. destruct (do_step_block s Hwf Hlw Hlh (or_introl Hb))
        as (st1' & Hs' & Hb'). congruence.
Qed.

(** *** The loop *)

Variable frobenius_norm : @ndarray F -> @ndarray F -> @ndarray F -> F.

Lemma bind_Ok_r {B : Type} (r : result B) : (x <- r ;; Ok x) = r.
Proof. now destruct r. Qed.

Lemma iteration_run (cw ch : bool) st : iteration cw ch st = run (calls cw ch) st.
Proof.
  unfold iteration, calls. destruct cw, ch; simpl.
  - destruct (_update_w st); simpl; [now rewrite bind_Ok_r|reflexivity].
  - now rewrite bind_Ok_r.
  - now rewrite bind_Ok_r.
  - reflexivity.
Qed.

Lemma loop_returns (n : nat) (cw ch ce : bool) st (errs : list F) (lw lh : F) :
  _lamb_W st = Some lw -> _lamb_H st = Some lh ->
  exists st' errs',
    MatrixFactBase_loop frobenius_norm n cw ch ce st errs = Ok (st', errs') /\
    run (schedule n cw ch) st = Ok st' /\
    length errs' = length errs + (if ce then n else 0).
Proof.
  revert st errs lw lh. induction n as [|n IH]; intros st errs lw lh Hlw Hlh.
  - exists st, errs. simpl. splits; auto. destruct ce; lia.
  - simpl. rewrite run_app, iteration_run.
    destruct (run_returns (calls cw ch) st Hlw Hlh) as (st1 & Hr & _ & Hlw1 & Hlh1).
    rewrite Hr. simpl.
    destruct (IH st1 (if ce
                      then errs ++ [frobenius_norm (data st1) (W st1) (H st1)]
                      else errs) _ _ Hlw1 Hlh1)
      as (st' & errs' & Hloop & Hrun & Hlen).
    exists st', errs'. splits; auto.
    rewrite Hlen. destruct ce; [rewrite length_app; simpl|]; lia.
Qed.

(** With neither update requested, the loop leaves the object alone and
    records the same error [n] times. *)
Lemma loop_idle (n : nat) (ce : bool) st (errs : list F) :
  MatrixFactBase_loop frobenius_norm n false false ce st errs =
  Ok (st, errs ++ (if ce
                   then repeat (frobenius_norm (data st) (W st) (H st)) n
                   else [])).
Proof.
  revert errs. induction n as [|n IH]; intros errs; simpl.
  - destruct ce; now rewrite app_nil_r.
  - unfold iteration. simpl. rewrite IH.
    destruct ce; [|reflexivity]. now rewrite <- app_assoc.
Qed.

Lemma factorize_zero st (cw ch sp ce : bool) :
  factorize frobenius_norm st 0 cw ch sp ce = Raise ZeroDivisionError.
Proof. reflexivity. Qed.

(** [factorize] sets both multipliers to [1.0/niter] and enters the loop. *)
Lemma factorize_init st (niter : Z) (cw ch sp ce : bool) :
  niter <> 0%Z ->
  factorize frobenius_norm st niter cw ch sp ce =
  MatrixFactBase_factorize frobenius_norm
    (set_lamb_H (set_lamb_W st (div (lit 1%Q) (lit (inject_Z niter))))
       (div (lit 1%Q) (lit (inject_Z niter))))
    niter cw ch sp ce.
Proof.
  intros Hn. unfold factorize, truediv.
  destruct (Z.eqb_spec niter 0); [contradiction|reflexivity].
Qed.

Lemma factorize_returns st (niter : Z) (cw ch sp ce : bool) :
  niter <> 0%Z ->
  exists st1 errs,
    run (schedule (Z.to_nat niter) cw ch)
      (set_lamb_H (set_lamb_W st (div (lit 1%Q) (lit (inject_Z niter))))
         (div (lit 1%Q) (lit (inject_Z niter)))) = Ok st1 /\
    length errs = (if ce then Z.to_nat niter else 0) /\
    factorize frobenius_norm st niter cw ch sp ce =
    Ok (if ce then set_ferr st1 errs else st1).
Proof.
  intros Hn. rewrite (factorize_init st cw ch sp ce Hn).
  unfold MatrixFactBase_factorize.
  edestruct (loop_returns (Z.to_nat niter) cw ch ce
               (set_lamb_H (set_lamb_W st (div (lit 1%Q) (lit (inject_Z niter))))
                  (div (lit 1%Q) (lit (inject_Z niter)))) [])
    as (st1 & errs & Hloop & Hrun & Hlen); [reflexivity|reflexivity|].
  exists st1, errs. rewrite Hloop. simpl. splits; auto.
Qed.

(** *** [h_augments] *)

Lemma _update_w_h_augments (h : option ndarray) st :
  _update_w (set_h_augments h st) = fmap (set_h_augments h) (_update_w st).
Proof. unfold _update_w. simpl. now destruct (_lamb_W st). Qed.

Lemma _update_h_h_augments (h : option ndarray) st :
  _update_h (set_h_augments h st) = fmap (set_h_augments h) (_update_h st).
Proof.
  unfold _update_h. simpl.
  destruct (_lamb_H st); simpl; [|reflexivity].
  now destruct (_lamb_W st).
Qed.

Lemma run_h_augments (h : option ndarray) (ss : list step) st :
  run ss (set_h_augments h st) = fmap (set_h_augments h) (run ss st).
Proof.
  revert st. induction ss as [|s ss IH]; intros st; simpl; [reflexivity|].
  assert (Hs : do_step s (set_h_augments h st) =
               fmap (set_h_augments h) (do_step s st))
    by (destruct s; [apply _update_w_h_augments|apply _update_h_h_augments]).
  rewrite Hs. destruct (do_step s st); simpl; [apply IH|reflexivity].
Qed.

Lemma loop_h_augments (h : option ndarray) (n : nat) (cw ch ce : bool) st
    (errs : list F) :
  MatrixFactBase_loop frobenius_norm n cw ch ce (set_h_augments h st) errs =
  fmap (fun r => (set_h_augments h (fst r), snd r))
    (MatrixFactBase_loop frobenius_norm n cw ch ce st errs).
Proof.
  revert st errs. induction n as [|n IH]; intros st errs; simpl; [reflexivity|].
  rewrite !iteration_run, run_h_augments.
  destruct (run (calls cw ch) st) as [st1|e]; simpl; [|reflexivity].
  apply IH.
Qed.

Lemma factorize_h_augments (h : option ndarray) st (niter : Z)
    (cw ch sp ce : bool) :
  factorize frobenius_norm (set_h_augments h st) niter cw ch sp ce =
  fmap (set_h_augments h) (factorize frobenius_norm st niter cw ch sp ce).
Proof.
  unfold factorize, truediv.
  destruct (niter =? 0)%Z; simpl; [reflexivity|].
  unfold MatrixFactBase_factorize.
  match goal with
  | |- context [MatrixFactBase_loop _ _ _ _ _ ?s _] =>
      change s with (set_h_augments h
        (set_lamb_H (set_lamb_W st (div (lit 1%Q) (lit (inject_Z niter))))
           (div (lit 1%Q) (lit (inject_Z niter)))))
  end.
  rewrite loop_h_augments.
  destruct (MatrixFactBase_loop _ _ _ _ _ _ _) as [[st1 errs]|e]; simpl;
    [|reflexivity].
  now destruct ce.
Qed.

Lemma __init___h_augments (data0 wa : @ndarray F) (h1 h2 : option ndarray)
    (K : Z) (W0 H0 : @ndarray F) :
  __init__ data0 wa h2 K W0 H0 =
  fmap (set_h_augments h2) (__init__ data0 wa h1 K W0 H0).
Proof.
  unfold __init__.
  destruct (assert _); simpl; [|reflexivity].
  destruct (assert _); simpl; reflexivity.
Qed.

(** *** Construction *)

Lemma __init___Ok (data0 wa : @ndarray F) (h : option ndarray) (K : Z)
    (W0 H0 : @ndarray F) :
  nrows wa = nrows data0 -> (Z.of_nat (ncols wa) <= K)%Z ->
  __init__ data0 wa h K W0 H0 =
  Ok (mk_ABNMF data0 K W0 H0 wa h
        (ix_ (range 0 (Z.of_nat (nrows data0))) (range (K - Z.of_nat (ncols wa)) K))
        None None None).
Proof.
  intros HD HA. unfold __init__, nrows, ncols in *.
  rewrite HD, Nat.eqb_refl. simpl.
  destruct (Z.leb_spec (Z.of_nat (snd (shape wa))) K); [reflexivity|lia].
Qed.

Lemma __init___Raise (data0 wa : @ndarray F) (h : option ndarray) (K : Z)
    (W0 H0 : @ndarray F) :
  nrows wa <> nrows data0 \/ (K < Z.of_nat (ncols wa))%Z ->
  __init__ data0 wa h K W0 H0 = Raise AssertionError.
Proof.
  intros Hbad. unfold __init__, nrows, ncols in *.
  destruct (Nat.eqb_spec (fst (shape wa)) (fst (shape data0))) as [HD|HD];
    simpl; [|reflexivity].
  destruct (Z.leb_spec (Z.of_nat (snd (shape wa))) K); [|reflexivity].
  destruct Hbad; [contradiction|lia].
Qed.

(** Construction from arrays of the shapes the base class uses gives a
    shape-consistent object. *)
Lemma __init___wf (data0 wa : @ndarray F) (h : option ndarray) (K : Z)
    (W0 H0 : @ndarray F) st :
  wf_ndarray data0 -> wf_ndarray wa -> wf_ndarray W0 -> wf_ndarray H0 ->
  shape W0 = (nrows data0, Z.to_nat K) ->
  shape H0 = (Z.to_nat K, ncols data0) ->
  __init__ data0 wa h K W0 H0 = Ok st ->
  wf_state st.
Proof.
  intros Hd Hwa HW HH HsW HsH Hinit.
  destruct (Nat.eq_dec (nrows wa) (nrows data0)) as [HD|HD];
    [|rewrite __init___Raise in Hinit by (now left); discriminate].
  destruct (Z.le_gt_cases (Z.of_nat (ncols wa)) K) as [HA|HA];
    [|rewrite __init___Raise in Hinit by (right; lia); discriminate].
  rewrite __init___Ok in Hinit by assumption.
  injection Hinit as <-.
  unfold wf_state, nrows, ncols in *. simpl. rewrite HsW, HsH. simpl.
  splits; auto; lia.
Qed.

Lemma block_ok_entries st :
  wf_state st -> block_ok st ->
  forall i b, i < nrows (data st) -> b < ncols (w_augments st) ->
    get (W st) i (ncols (W st) - ncols (w_augments st) + b) =
    get (w_augments st) i b.
Proof.
  intros Hwf Hb i b Hi Hb'.
  pose proof (wf_state_idx Hwf) as Hidx.
  destruct Hwf as (_ & _ & _ & _ & HD & _ & _ & HDa & HA & _).
  rewrite <- Hb at 2. rewrite Hidx. unfold getitem_ix. cbn [fst snd].
  rewrite get_array by (rewrite length_range; lia).
  rewrite !nth_range by lia. now rewrite !Nat2Z.id.
Qed.

Lemma existsb_schedule (n : nat) (ch : bool) :
  0 < n -> existsb is_UpdateW (schedule n true ch) = true.
Proof. destruct n; [lia|reflexivity]. Qed.

(** ** The update rules *)

(** C1: one call of the H update replaces H by H multiplied element-wise by
    Numerator/Denominator, with Numerator = W^T*data + 3*lambda_H*H^2 and
    Denominator = W^T*W*H + 2*lambda_H*H^3 + lambda_H*H + 1e-9. *)
Theorem update_h_multiplicative_rule st (lw lh : F) :
  wf_state st -> _lamb_W st = Some lw -> _lamb_H st = Some lh ->
  exists st',
    _update_h st = Ok st' /\
    H st' = spec_updateH (data st) (W st) (H st) lh /\
    forall i j, i < nrows (H st) -> j < ncols (H st) ->
      get (H st') i j =
      mul (get (H st) i j)
          (div (H_numerator (data st) (W st) (H st) lh i j)
               (H_denominator (W st) (H st) lh i j)).
Proof.
  intros Hwf Hlw Hlh.
  destruct Hwf as (_ & _ & _ & _ & HD & HH & _).
  rewrite (_update_h_spec st HD HH Hlw Hlh).
  eexists. split; [reflexivity|]. simpl. split; [reflexivity|].
  intros i j Hi Hj. unfold spec_updateH. now rewrite get_array.
Qed.

(** C2: one call of the W update replaces W by W multiplied element-wise by
    Numerator/Denominator, with Numerator = data*H^T + 3*lambda_W*W^2 and
    Denominator = W*H*H^T + 2*lambda_W*W^3 + lambda_W*W + 1e-9, and then
    overwrites rows [0, D), columns [K - A_w, K) with wAugments. *)
Theorem update_w_rule_then_overwrite st (lw : F) :
  wf_state st -> _lamb_W st = Some lw ->
  exists st',
    _update_w st = Ok st' /\
    W st' = spec_updateW (data st) (W st) (H st) (w_augments st) lw /\
    forall i j, i < nrows (W st) -> j < ncols (W st) ->
      (ncols (W st) - ncols (w_augments st) <= j ->
       get (W st') i j =
       get (w_augments st) i (j - (ncols (W st) - ncols (w_augments st)))) /\
      (j < ncols (W st) - ncols (w_augments st) ->
       get (W st') i j =
       mul (get (W st) i j)
           (div (W_numerator (data st) (W st) (H st) lw i j)
                (W_denominator (W st) (H st) lw i j))).
Proof.
  intros Hwf Hlw. rewrite (_update_w_spec Hwf Hlw).
  eexists. split; [reflexivity|]. simpl. split; [reflexivity|].
  intros i j Hi Hj. unfold spec_updateW. rewrite get_array by assumption.
  split; intros Hblock.
  - destruct (Nat.leb_spec (ncols (W st) - ncols (w_augments st)) j); [|lia].
    destruct (Nat.ltb_spec j (ncols (W st))); [reflexivity|lia].
  - destruct (Nat.leb_spec (ncols (W st) - ncols (w_augments st)) j);
      [lia|reflexivity].
Qed.

(** C4: after every W update the block of W at columns [K - A_w, K) equals
    wAugments entry for entry; with A_w = 1 and wAugments = [[0],[1]], the
    last column of W is (0, 1) after any sequence of calls that updates W;
    the mesh is the one the constructor computed and no call changes it. *)
Theorem augmented_block_invariant st (lw lh : F) :
  wf_state st -> _lamb_W st = Some lw -> _lamb_H st = Some lh ->
  (exists st',
     _update_w st = Ok st' /\
     getitem_ix (W st') (w_augments_idx st') = w_augments st /\
     forall i b, i < nrows (data st) -> b < ncols (w_augments st) ->
       get (W st') i (ncols (W st) - ncols (w_augments st) + b) =
       get (w_augments st) i b) /\
  (forall ss, existsb is_UpdateW ss = true ->
     exists st',
       run ss st = Ok st' /\
       getitem_ix (W st') (w_augments_idx st') = w_augments st /\
       (w_augments st = of_rows [[lit 0%Q]; [lit 1%Q]] ->
        get (W st') 0 (ncols (W st) - 1) = lit 0%Q /\
        get (W st') 1 (ncols (W st) - 1) = lit 1%Q)) /\
  (forall niter ch sp ce, (1 <= niter)%Z ->
     exists st',
       factorize frobenius_norm st niter true ch sp ce = Ok st' /\
       getitem_ix (W st') (w_augments_idx st') = w_augments st) /\
  (forall ss st', run ss st = Ok st' -> w_augments_idx st' = w_augments_idx st) /\
  (forall data0 wa h K W0 H0 st0,
     __init__ data0 wa h K W0 H0 = Ok st0 ->
     w_augments_idx st0 =
     ix_ (range 0 (Z.of_nat (nrows data0))) (range (K - Z.of_nat (ncols wa)) K)).
Proof.
  intros Hwf Hlw Hlh. splits.
  - destruct (_update_w_block Hwf Hlw) as (st' & Hs & Hb).
    destruct (do_step_returns UpdateW st Hlw Hlh) as (st1 & Hs1 & Hk & _).
    simpl in Hs1. assert (st1 = st') by congruence. subst st1.
    exists st'. split; [exact Hs|].
    pose proof (block_ok_entries (kept_wf_state Hk Hwf) Hb) as He.
    destruct Hk as (Hd & _ & Hwa & _ & _ & _ & HsW & _).
    unfold block_ok in Hb. rewrite Hwa in Hb. split; [exact Hb|].
    intros i b Hi Hb'. unfold ncols, nrows in *.
    rewrite Hwa, Hd, HsW in He. now apply He.
  - intros ss Hss.
    destruct (run_block ss Hwf Hlw Hlh (or_intror Hss)) as (st' & Hr & Hb).
    destruct (run_returns ss st Hlw Hlh) as (st1 & Hr1 & Hk & _).
    assert (st1 = st') by congruence. subst st1.
    exists st'. split; [exact Hr|].
    pose proof (block_ok_entries (kept_wf_state Hk Hwf) Hb) as He.
    destruct Hk as (Hd & _ & Hwa & _ & _ & _ & HsW & _).
    unfold block_ok in Hb. rewrite Hwa in Hb. split; [exact Hb|].
    intros Hwa2. unfold ncols, nrows in *.
    rewrite Hwa, Hd, HsW in He.
    destruct Hwf as (_ & _ & _ & _ & _ & _ & _ & HDa & _).
    unfold nrows in HDa. rewrite <- HDa in He. rewrite Hwa2 in He.
    simpl in He.
    rewrite <- (Nat.add_0_r (snd (shape (W st)) - 1)).
    split; [apply (He 0 0)|apply (He 1 0)]; lia.
  - intros niter ch sp ce Hn.
    destruct (factorize_returns st true ch sp ce (niter:=niter))
      as (st1 & errs & Hr & _ & Hf); [lia|].
    set (st0 := set_lamb_H (set_lamb_W st _) _) in Hr.
    assert (Hwf0 : wf_state st0) by exact Hwf.
    destruct (@run_block (schedule (Z.to_nat niter) true ch) st0 _ _
                Hwf0 eq_refl eq_refl) as (st' & Hr' & Hb);
      [right; apply existsb_schedule; lia|].
    rewrite Hr in Hr'. injection Hr' as <-.
    destruct (@run_returns (schedule (Z.to_nat niter) true ch) st0 _ _
                eq_refl eq_refl) as (st2 & Hr2 & Hk & _).
    rewrite Hr in Hr2. injection Hr2 as <-.
    destruct Hk as (_ & _ & Hwa & _).
    unfold block_ok in Hb. rewrite Hwa in Hb. simpl in Hb.
    eexists. split; [exact Hf|]. now destruct ce.
  - intros ss st' Hr.
    destruct (run_returns ss st Hlw Hlh) as (st1 & Hr1 & Hk & _).
    assert (st1 = st') by congruence. subst st1.
    now destruct Hk as (_ & _ & _ & _ & Hidx & _).
  - intros data0 wa h K W0 H0 st0 Hinit.
    destruct (Nat.eq_dec (nrows wa) (nrows data0)) as [HD|HD];
      [|rewrite __init___Raise in Hinit by (now left); discriminate].
    destruct (Z.le_gt_cases (Z.of_nat (ncols wa)) K) as [HA|HA];
      [|rewrite __init___Raise in Hinit by (right; lia); discriminate].
    rewrite __init___Ok in Hinit by assumption.
    now injection Hinit as <-.
Qed.

(** The update rules raise nothing but a missing attribute. *)
Lemma do_step_raises (s : step) st (e : exn) :
  do_step s st = Raise e -> e = AttributeError.
Proof.
  destruct s; simpl.
  - unfold _update_w. destruct (_lamb_W st); simpl; congruence.
  - unfold _update_h. destruct (_lamb_H st); simpl; [|congruence].
    destruct (_lamb_W st); simpl; congruence.
Qed.

Lemma factorize_raises st (niter : Z) (cw ch sp ce : bool) (e : exn) :
  factorize frobenius_norm st niter cw ch sp ce = Raise e ->
  niter = 0%Z /\ e = ZeroDivisionError.
Proof.
  destruct (Z.eq_dec niter 0) as [->|Hn].
  - rewrite factorize_zero. intros [= <-]. now split.
  - destruct (factorize_returns st cw ch sp ce Hn) as (st1 & errs & _ & _ & Hf).
    rewrite Hf. discriminate.
Qed.

(** ** Construction *)

(** C6: construction raises exactly when the row count of wAugments differs
    from that of data or its column count exceeds num_bases; nothing else
    about the arguments is looked at (neither update nor [factorize] ever
    fails an assertion), and after a failed construction no later call
    runs. *)
Theorem construction_fails_iff_shape_mismatch (data0 wa : @ndarray F)
    (h : option ndarray) (K : Z) (W0 H0 : @ndarray F) :
  ((exists e, __init__ data0 wa h K W0 H0 = Raise e) <->
   (nrows wa <> nrows data0 \/ (K < Z.of_nat (ncols wa))%Z)) /\
  (nrows wa <> nrows data0 \/ (K < Z.of_nat (ncols wa))%Z ->
   __init__ data0 wa h K W0 H0 = Raise AssertionError /\
   forall (B : Type) (k : ABNMF -> result B),
     (st <- __init__ data0 wa h K W0 H0 ;; k st) = Raise AssertionError) /\
  (nrows wa = nrows data0 -> (Z.of_nat (ncols wa) <= K)%Z ->
   __init__ data0 wa h K W0 H0 =
   Ok (mk_ABNMF data0 K W0 H0 wa h
         (ix_ (range 0 (Z.of_nat (nrows data0)))
              (range (K - Z.of_nat (ncols wa)) K))
         None None None)) /\
  (forall st,
     _update_w st <> Raise AssertionError /\
     _update_h st <> Raise AssertionError /\
     forall niter cw ch sp ce,
       factorize frobenius_norm st niter cw ch sp ce <> Raise AssertionError).
Proof.
  splits; cycle 3.
  - intros st. splits.
    + intros He. apply (do_step_raises UpdateW) in He. discriminate.
    + intros He. apply (do_step_raises UpdateH) in He. discriminate.
    + intros niter cw ch sp ce He.
      apply factorize_raises in He. destruct He. discriminate.
  - split.
    + intros [e He].
      destruct (Nat.eq_dec (nrows wa) (nrows data0)) as [HD|HD]; [|now left].
      destruct (Z.le_gt_cases (Z.of_nat (ncols wa)) K) as [HA|HA]; [|right; lia].
      rewrite __init___Ok in He by assumption. discriminate.
    + intros Hbad. exists AssertionError. now apply __init___Raise.
  - intros Hbad. split.
    + now apply __init___Raise.
    + intros B k. now rewrite __init___Raise.
  - intros HD HA. now apply __init___Ok.
Qed.

(** ** Factorization without updates *)

(** C7, as the code has it: [factorize(niter=0)] raises a division by
    zero instead of returning; with [niter >= 1] and neither update
    requested, the call returns with W and H unchanged, and the error
    sequence has [niter] entries when [compute_err] is set and is left as
    it was otherwise. *)
Theorem factorize_without_updates st (niter : Z) (sp ce : bool) :
  wf_state st -> (1 <= niter)%Z ->
  (forall cw ch, factorize frobenius_norm st 0 cw ch sp ce = Raise ZeroDivisionError) /\
  exists st',
    factorize frobenius_norm st niter false false sp ce = Ok st' /\
    W st' = W st /\ H st' = H st /\
    ferr st' =
    (if ce
     then Some (repeat (frobenius_norm (data st) (W st) (H st)) (Z.to_nat niter))
     else ferr st).
Proof.
  intros _ Hn. split; [intros; apply factorize_zero|].
  rewrite factorize_init by lia.
  unfold MatrixFactBase_factorize. rewrite loop_idle. simpl.
  eexists. split; [reflexivity|]. now destruct ce.
Qed.

(** ** Frame properties *)

(** C8: h_augments is stored and never read: construction, both updates
    and factorization commute with replacing it, so W, H, lambda_W and
    lambda_H never depend on it. *)
Theorem h_augments_is_inert (data0 wa : @ndarray F) (h1 h2 : option ndarray)
    (K : Z) (W0 H0 : @ndarray F) :
  __init__ data0 wa h2 K W0 H0 =
    fmap (set_h_augments h2) (__init__ data0 wa h1 K W0 H0) /\
  (forall h st,
     _update_w (set_h_augments h st) = fmap (set_h_augments h) (_update_w st) /\
     _update_h (set_h_augments h st) = fmap (set_h_augments h) (_update_h st)) /\
  (forall h ss st,
     fmap factors (run ss (set_h_augments h st)) = fmap factors (run ss st)) /\
  (forall niter cw ch sp ce ss,
     fmap factors
       (st <- __init__ data0 wa h1 K W0 H0 ;;
        st <- factorize frobenius_norm st niter cw ch sp ce ;;
        run ss st) =
     fmap factors
       (st <- __init__ data0 wa h2 K W0 H0 ;;
        st <- factorize frobenius_norm st niter cw ch sp ce ;;
        run ss st)).
Proof.
  splits.
  - apply __init___h_augments.
  - intros h st. split;
      [apply _update_w_h_augments|apply _update_h_h_augments].
  - intros h ss st. rewrite run_h_augments. now destruct (run ss st).
  - intros niter cw ch sp ce ss.
    rewrite (__init___h_augments data0 wa h1 h2 K W0 H0).
    destruct (__init__ data0 wa h1 K W0 H0) as [st|e]; simpl; [|reflexivity].
    rewrite factorize_h_augments.
    destruct (factorize frobenius_norm st niter cw ch sp ce) as [st1|e]; simpl;
      [|reflexivity].
    rewrite run_h_augments. now destruct (run ss st1).
Qed.

(** C9: neither update nor a whole factorization changes data. *)
Theorem data_is_never_mutated st (lw lh : F) (niter : Z) (cw ch sp ce : bool) :
  wf_state st ->
  _lamb_W st = Some lw -> _lamb_H st = Some lh -> niter <> 0%Z ->
  (exists st', _update_w st = Ok st' /\ data st' = data st) /\
  (exists st', _update_h st = Ok st' /\ data st' = data st) /\
  (forall ss, exists st', run ss st = Ok st' /\ data st' = data st) /\
  (exists st',
     factorize frobenius_norm st niter cw ch sp ce = Ok st' /\
     data st' = data st).
Proof.
  intros _ Hlw Hlh Hn. splits.
  - destruct (do_step_returns UpdateW st Hlw Hlh) as (st' & Hs & Hk & _).
    exists st'. split; [exact Hs|apply Hk].
  - destruct (do_step_returns UpdateH st Hlw Hlh) as (st' & Hs & Hk & _).
    exists st'. split; [exact Hs|apply Hk].
  - intros ss.
    destruct (run_returns ss st Hlw Hlh) as (st' & Hr & Hk & _).
    exists st'. split; [exact Hr|apply Hk].
  - destruct (factorize_returns st cw ch sp ce Hn) as (st1 & errs & Hr & _ & Hf).
    set (st0 := set_lamb_H (set_lamb_W st _) _) in Hr.
    destruct (@run_returns (schedule (Z.to_nat niter) cw ch) st0 _ _
                eq_refl eq_refl) as (st2 & Hr2 & Hk & _).
    rewrite Hr in Hr2. injection Hr2 as <-.
    eexists. split; [exact Hf|].
    destruct Hk as (Hd & _). now destruct ce.
Qed.

(** C10: the H update leaves W and wAugments unchanged, the W update
    leaves H, lambda_W, lambda_H and wAugments unchanged, and both keep
    the shapes (D, K) of W and (K, N) of H. *)
Theorem updates_touch_only_their_factor st (lw lh : F) (D K N : nat) :
  wf_state st ->
  _lamb_W st = Some lw -> _lamb_H st = Some lh ->
  shape (W st) = (D, K) -> shape (H st) = (K, N) ->
  (exists st',
     _update_h st = Ok st' /\
     W st' = W st /\ w_augments st' = w_augments st /\
     shape (W st') = (D, K) /\ shape (H st') = (K, N)) /\
  (exists st',
     _update_w st = Ok st' /\
     H st' = H st /\ _lamb_W st' = _lamb_W st /\ _lamb_H st' = _lamb_H st /\
     w_augments st' = w_augments st /\
     shape (W st') = (D, K) /\ shape (H st') = (K, N)).
Proof.
  intros _ Hlw Hlh HsW HsH. split.
  - destruct (do_step_returns UpdateH st Hlw Hlh)
      as (st' & Hs & Hk & _ & _ & HW & _).
    exists st'. split; [exact Hs|].
    destruct Hk as (_ & _ & Hwa & _ & _ & _ & HsW' & HsH' & _).
    splits; auto; congruence.
  - destruct (do_step_returns UpdateW st Hlw Hlh)
      as (st' & Hs & Hk & Hlw' & Hlh' & _ & HH).
    exists st'. split; [exact Hs|].
    destruct Hk as (_ & _ & Hwa & _ & _ & _ & HsW' & HsH' & _).
    simpl in Hlw', Hlh'. splits; auto; congruence.
Qed.

End EngineProperties.

(** ** Properties that need exact arithmetic *)


Section Exact.

Implicit Types (a b c l : Qc).








End Exact.

(** ** The scenario, checked *)

Lemma fresh_wf : wf_state Scenario.fresh.
Proof.
  unfold wf_state, wf_ndarray. splits; try reflexivity;
    try (repeat (apply Forall_cons || apply Forall_nil); reflexivity).
  vm_compute. lia.
Qed.

Lemma running_wf : wf_state Scenario.running.
Proof. exact fresh_wf. Qed.

(** The scenario is what the constructor returns. *)
Lemma scenario_constructed :
  __init__ Scenario.data0 Scenario.w_augments0 None 2 Scenario.W0 Scenario.H0 =
  Ok Scenario.fresh.
Proof. reflexivity. Qed.

(** One W update in the scenario, with both multipliers at 1/5: the first
    column is rescaled, the last column is the augments. *)
Example scenario_update_w :
  fmap (fun st => Scenario.entries (W st)) (_update_w Scenario.running) =
  Ok [[85050000000 # 80431250189; 0]; [9778125000 # 12625625063; 1]]%Q.
Proof. vm_compute. reflexivity. Qed.

(** Two full iterations from 1/2: both multipliers end at 1/2 * 1.1^2. *)
Example scenario_factorize_lambda :
  fmap (fun st => (option_map this (_lamb_W st), option_map this (_lamb_H st)))
    (factorize Scenario.norm0 Scenario.fresh 2 true true false true) =
  Ok (Some (121 # 200), Some (121 # 200))%Q.
Proof. vm_compute. reflexivity. Qed.

(** An update before any [factorize] call finds no multiplier. *)
Example scenario_update_before_factorize :
  _update_w Scenario.fresh = Raise AttributeError /\
  _update_h Scenario.fresh = Raise AttributeError.
Proof. split; reflexivity. Qed.

Lemma construction_fails_iff_shape_mismatch_witness :
  __init__ Scenario.data0 Scenario.short_augments None 2 Scenario.W0 Scenario.H0 =
    Raise AssertionError /\
  __init__ Scenario.data0 Scenario.w_augments0 None 0 Scenario.W0 Scenario.H0 =
    Raise AssertionError /\
  __init__ Scenario.data0 Scenario.w_augments0 None 2 Scenario.W0 Scenario.H0 =
    Ok Scenario.fresh.
Proof.
  splits.
  - destruct (@construction_fails_iff_shape_mismatch _ _ Scenario.norm0
                Scenario.data0 Scenario.short_augments None 2
                Scenario.W0 Scenario.H0) as (_ & Hbad & _).
    apply Hbad. left. discriminate.
  - destruct (@construction_fails_iff_shape_mismatch _ _ Scenario.norm0
                Scenario.data0 Scenario.w_augments0 None 0
                Scenario.W0 Scenario.H0) as (_ & Hbad & _).
    apply Hbad. right. reflexivity.
  - destruct (@construction_fails_iff_shape_mismatch _ _ Scenario.norm0
                Scenario.data0 Scenario.w_augments0 None 2
                Scenario.W0 Scenario.H0) as (_ & _ & Hok & _).
    apply Hok; [reflexivity|discriminate].
Defined.

Lemma h_augments_is_inert_witness :
  fmap factors
    (st <- __init__ Scenario.data0 Scenario.w_augments0 None 2
             Scenario.W0 Scenario.H0 ;;
     st <- factorize Scenario.norm0 st 3 true true false true ;;
     run [UpdateW; UpdateH] st) =
  fmap factors
    (st <- __init__ Scenario.data0 Scenario.w_augments0 (Some Scenario.H0) 2
             Scenario.W0 Scenario.H0 ;;
     st <- factorize Scenario.norm0 st 3 true true false true ;;
     run [UpdateW; UpdateH] st).
Proof.
  destruct (@h_augments_is_inert _ _ Scenario.norm0 Scenario.data0
              Scenario.w_augments0 None (Some Scenario.H0) 2
              Scenario.W0 Scenario.H0) as (_ & _ & _ & Hf).
  exact (Hf 3%Z true true false true [UpdateW; UpdateH]).
Defined.

Lemma update_h_multiplicative_rule_witness :
  exists st',
    _update_h Scenario.running = Ok st' /\
    H st' = spec_updateH Scenario.data0 Scenario.W0 Scenario.H0 (Scenario.q 1 5).
Proof.
  destruct (@update_h_multiplicative_rule _ _ Scenario.running
              (Scenario.q 1 5) (Scenario.q 1 5) running_wf eq_refl eq_refl)
    as (st' & Hs & HH & _).
  exists st'. split; assumption.
Defined.

Lemma update_w_rule_then_overwrite_witness :
  exists st',
    _update_w Scenario.running = Ok st' /\
    W st' = spec_updateW Scenario.data0 Scenario.W0 Scenario.H0
              Scenario.w_augments0 (Scenario.q 1 5).
Proof.
  destruct (@update_w_rule_then_overwrite _ _ Scenario.running
              (Scenario.q 1 5) running_wf eq_refl)
    as (st' & Hs & HW & _).
  exists st'. split; assumption.
Defined.

Lemma augmented_block_invariant_witness :
  exists st',
    run [UpdateW; UpdateH; UpdateW; UpdateH] Scenario.running = Ok st' /\
    getitem_ix (W st') (w_augments_idx st') = Scenario.w_augments0 /\
    get (W st') 0 1 = Q2Qc 0 /\ get (W st') 1 1 = Q2Qc 1.
Proof.
  destruct (@augmented_block_invariant _ _ Scenario.norm0 Scenario.running
              (Scenario.q 1 5) (Scenario.q 1 5) running_wf eq_refl eq_refl)
    as (_ & Hrun & _).
  destruct (Hrun [UpdateW; UpdateH; UpdateW; UpdateH] eq_refl)
    as (st' & Hr & Hb & Hcol).
  exists st'. split; [exact Hr|]. split; [exact Hb|].
  exact (Hcol eq_refl).
Defined.

Lemma factorize_without_updates_witness :
  exists st',
    factorize Scenario.norm0 Scenario.fresh 2 false false false true = Ok st' /\
    W st' = Scenario.W0 /\ H st' = Scenario.H0 /\
    ferr st' = Some [Scenario.q 0 1; Scenario.q 0 1].
Proof.
  assert (Hn : (1 <= 2)%Z) by lia.
  destruct (@factorize_without_updates _ _ Scenario.norm0 Scenario.fresh 2
              false true fresh_wf Hn) as (_ & st' & Hf & HW & HH & He).
  exists st'. splits; assumption.
Defined.

Lemma data_is_never_mutated_witness :
  exists st',
    factorize Scenario.norm0 Scenario.running 3 true true false true = Ok st' /\
    data st' = Scenario.data0.
Proof.
  assert (Hn : 3%Z <> 0%Z) by discriminate.
  destruct (@data_is_never_mutated _ _ Scenario.norm0 Scenario.running
              (Scenario.q 1 5) (Scenario.q 1 5) 3 true true false true
              running_wf eq_refl eq_refl Hn) as (_ & _ & _ & Hf).
  exact Hf.
Defined.

Lemma updates_touch_only_their_factor_witness :
  (exists st', _update_h Scenario.running = Ok st' /\ W st' = Scenario.W0) /\
  (exists st', _update_w Scenario.running = Ok st' /\ H st' = Scenario.H0).
Proof.
  destruct (@updates_touch_only_their_factor _ _ Scenario.running
              (Scenario.q 1 5) (Scenario.q 1 5) 2 2 3
              running_wf eq_refl eq_refl eq_refl eq_refl)
    as ((st1 & Hs1 & HW & _) & (st2 & Hs2 & HH & _)).
  split; [exists st1|exists st2]; split; assumption.
Defined.

(** C7, as stated, fails: [factorize(niter=0)] does not return, and with
    both updates switched off and [compute_err] set (its default) the
    error sequence of two iterations is neither absent nor empty, whatever
    the reconstruction error is. *)
Lemma factorize_idle_counterexample :
  ~ (exists norm st',
       factorize norm Scenario.fresh 0 true true false true = Ok st') /\
  ~ (exists norm st',
       factorize norm Scenario.fresh 2 false false false true = Ok st' /\
       (ferr st' = None \/ ferr st' = Some [])).
Proof.
  split.
  - intros (norm & st' & Hf). rewrite factorize_zero in Hf. discriminate.
  - intros (norm & st' & Hf & He).
    rewrite factorize_init in Hf by discriminate.
    unfold MatrixFactBase_factorize in Hf. rewrite loop_idle in Hf.
    cbn [bind fst snd] in Hf. injection Hf as <-.
    simpl in He. destruct He; discriminate.
Qed.

(** ** Further properties of the engine *)

Lemma Forall_range (a b : Z) : Forall (fun z => (a <= z < b)%Z) (range a b).
Proof.
  unfold range. apply Forall_forall. intros z Hz.
  apply in_map_iff in Hz. destruct Hz as (i & <- & Hi).
  apply in_seq in Hi. lia.
Qed.

Lemma length_range_Z (a b : Z) : length (range a b) = Z.to_nat (b - a).
Proof. unfold range. now rewrite length_map, length_seq. Qed.

Lemma NoDup_range (a b : Z) : NoDup (range a b).
Proof.
  unfold range. apply NoDup_map_NoDup_ForallPairs; [|apply seq_NoDup].
  intros i j _ _ Hij. lia.
Qed.

Section MoreEngineProperties.

Context {F : Type} {A : Arith F}.

Implicit Types (M V : @ndarray F) (st : @ABNMF F).

(** X5: after a successful construction the mesh names each of the D rows
    and each of the columns K - A_w, ..., K - 1 once, every index lies
    inside a D x K array and none is negative, and the mesh has the shape
    of the augments. *)
Theorem constructed_mesh_is_in_bounds (data0 wa : @ndarray F)
    (h : option ndarray) (K : Z) (W0 H0 : @ndarray F) st :
  __init__ data0 wa h K W0 H0 = Ok st ->
  (length (fst (w_augments_idx st)), length (snd (w_augments_idx st))) =
    shape (w_augments st) /\
  Forall (fun z => (0 <= z < Z.of_nat (nrows data0))%Z) (fst (w_augments_idx st)) /\
  Forall (fun z => (0 <= z < K)%Z /\ (K - Z.of_nat (ncols wa) <= z)%Z)
    (snd (w_augments_idx st)) /\
  NoDup (fst (w_augments_idx st)) /\ NoDup (snd (w_augments_idx st)).
Proof.
  intros Hinit.
  destruct (Nat.eq_dec (nrows wa) (nrows data0)) as [HD|HD];
    [|rewrite __init___Raise in Hinit by (now left); discriminate].
  destruct (Z.le_gt_cases (Z.of_nat (ncols wa)) K) as [HA|HA];
    [|rewrite __init___Raise in Hinit by (right; lia); discriminate].
  rewrite __init___Ok in Hinit by assumption.
  injection Hinit as <-. simpl. splits.
  - rewrite !length_range_Z. unfold nrows, ncols in *.
    destruct (shape wa) as [n m]; simpl in *. f_equal; lia.
  - apply Forall_range.
  - eapply Forall_impl; [|apply Forall_range]. simpl. intros z Hz. lia.
  - apply NoDup_range.
  - apply NoDup_range.
Qed.

(** X6: the two extremes of the augmented block.  With no augmented column
    the W update is the multiplicative rule at every entry; with all K
    columns augmented the updated W is the array of augments, whatever
    data, H and the multiplier are. *)
Theorem update_w_at_the_extremes st (lw : F) :
  wf_state st -> _lamb_W st = Some lw ->
  exists st',
    _update_w st = Ok st' /\
    (ncols (w_augments st) = 0 ->
     forall i j, i < nrows (W st) -> j < ncols (W st) ->
       get (W st') i j =
       mul (get (W st) i j)
           (div (W_numerator (data st) (W st) (H st) lw i j)
                (W_denominator (W st) (H st) lw i j))) /\
    (ncols (w_augments st) = ncols (W st) -> W st' = w_augments st).
Proof.
  intros Hwf Hlw. rewrite (_update_w_spec Hwf Hlw).
  eexists. split; [reflexivity|]. simpl.
  destruct Hwf as (_ & _ & _ & Hwa & HD & _ & _ & HDa & _).
  split.
  - intros HA i j Hi Hj. unfold spec_updateW. rewrite get_array by assumption.
    rewrite HA, Nat.sub_0_r.
    destruct (Nat.leb_spec (ncols (W st)) j); [lia|reflexivity].
  - intros HA. rewrite (wf_ndarray_eq Hwa) at 2.
    unfold spec_updateW. rewrite HA, Nat.sub_diag, HDa, <- HD.
    apply array_ext. intros i j Hi Hj. simpl.
    apply Nat.ltb_lt in Hj. rewrite Hj. now rewrite Nat.sub_0_r.
Qed.

(** X10: shape consistency is an invariant: after any sequence of update
    calls the object is shape-consistent again, with the shapes of W, H,
    data and the augments it started with. *)
Theorem shape_consistency_is_invariant (ss : list step) st (lw lh : F) :
  wf_state st -> _lamb_W st = Some lw -> _lamb_H st = Some lh ->
  exists st',
    run ss st = Ok st' /\ wf_state st' /\
    shape (W st') = shape (W st) /\ shape (H st') = shape (H st) /\
    data st' = data st /\ w_augments st' = w_augments st /\
    _num_bases st' = _num_bases st.
Proof.
  intros Hwf Hlw Hlh.
  destruct (run_returns ss st Hlw Hlh) as (st' & Hr & Hk & _).
  exists st'. split; [exact Hr|]. split; [exact (kept_wf_state Hk Hwf)|].
  destruct Hk as (Hd & HK & Hwa & _ & _ & _ & HsW & HsH & _).
  now splits.
Qed.

(** X8: the H update treats the samples independently: the new
    coefficients of a sample depend only on W, the multiplier, and the
    data and old coefficients of that sample. *)
Theorem update_h_treats_samples_independently st1 st2 (lw1 lw2 lh : F)
    (j1 j2 : nat) :
  wf_state st1 -> wf_state st2 ->
  _lamb_W st1 = Some lw1 -> _lamb_H st1 = Some lh ->
  _lamb_W st2 = Some lw2 -> _lamb_H st2 = Some lh ->
  W st1 = W st2 ->
  j1 < ncols (data st1) -> j2 < ncols (data st2) ->
  (forall d, d < nrows (W st1) -> get (data st1) d j1 = get (data st2) d j2) ->
  (forall l, l < ncols (W st1) -> get (H st1) l j1 = get (H st2) l j2) ->
  exists st1' st2',
    _update_h st1 = Ok st1' /\ _update_h st2 = Ok st2' /\
    forall i, i < ncols (W st1) -> get (H st1') i j1 = get (H st2') i j2.
Proof.
  intros Hwf1 Hwf2 Hlw1 Hlh1 Hlw2 Hlh2 HW Hj1 Hj2 Hdata HH.
  destruct Hwf1 as (_ & _ & _ & _ & HD1 & Hs1 & _).
  destruct Hwf2 as (_ & _ & _ & _ & HD2 & Hs2 & _).
  rewrite (_update_h_spec st1 HD1 Hs1 Hlw1 Hlh1).
  rewrite (_update_h_spec st2 HD2 Hs2 Hlw2 Hlh2).
  do 2 eexists. split; [reflexivity|]. split; [reflexivity|].
  intros i Hi. simpl. unfold spec_updateH.
  rewrite !get_array
    by (unfold nrows, ncols in *; rewrite ?Hs1, ?Hs2, <- ?HW; simpl; lia).
  rewrite <- HW. rewrite (HH i Hi). f_equal. f_equal.
  - unfold H_numerator. rewrite (HH i Hi). f_equal.
    apply psum_ext. intros d Hd. now rewrite Hdata.
  - unfold H_denominator. rewrite (HH i Hi). do 3 f_equal.
    apply psum_ext. intros l Hl. now rewrite HH.
Qed.

(** X9: the W update treats the features independently: a row of the new
    W depends only on H, the multiplier, and that row of data, of the old
    W and of the augments. *)
Theorem update_w_treats_features_independently st1 st2 (lw : F) (i1 i2 : nat) :
  wf_state st1 -> wf_state st2 ->
  _lamb_W st1 = Some lw -> _lamb_W st2 = Some lw ->
  H st1 = H st2 ->
  ncols (w_augments st1) = ncols (w_augments st2) ->
  i1 < nrows (W st1) -> i2 < nrows (W st2) ->
  (forall n, n < ncols (data st1) -> get (data st1) i1 n = get (data st2) i2 n) ->
  (forall l, l < ncols (W st1) -> get (W st1) i1 l = get (W st2) i2 l) ->
  (forall b, b < ncols (w_augments st1) ->
     get (w_augments st1) i1 b = get (w_augments st2) i2 b) ->
  exists st1' st2',
    _update_w st1 = Ok st1' /\ _update_w st2 = Ok st2' /\
    forall j, j < ncols (W st1) -> get (W st1') i1 j = get (W st2') i2 j.
Proof.
  intros Hwf1 Hwf2 Hlw1 Hlw2 HH HA Hi1 Hi2 Hdata HW Hwa.
  rewrite (_update_w_spec Hwf1 Hlw1), (_update_w_spec Hwf2 Hlw2).
  do 2 eexists. split; [reflexivity|]. split; [reflexivity|].
  destruct Hwf1 as (_ & _ & _ & _ & _ & Hs1 & _ & _ & HA1 & _).
  destruct Hwf2 as (_ & _ & _ & _ & _ & Hs2 & _ & _ & HA2 & _).
  assert (HK : ncols (W st1) = ncols (W st2))
    by (rewrite HH in Hs1; rewrite Hs1 in Hs2; now injection Hs2).
  assert (HN : ncols (data st1) = ncols (data st2))
    by (rewrite HH in Hs1; rewrite Hs1 in Hs2; now injection Hs2).
  intros j Hj. simpl. unfold spec_updateW.
  rewrite !get_array by lia.
  rewrite <- HA, <- HK.
  destruct (Nat.leb_spec (ncols (W st1) - ncols (w_augments st1)) j);
    destruct (Nat.ltb_spec j (ncols (W st1))); simpl; try lia.
  - apply Hwa. lia.
  - rewrite (HW j Hj). f_equal. f_equal.
    + unfold W_numerator. rewrite (HW j Hj), <- HN, <- HH. f_equal.
      apply psum_ext. intros n Hn. now rewrite Hdata.
    + unfold W_denominator. rewrite (HW j Hj), <- HK, <- HH. do 3 f_equal.
      apply psum_ext. intros l Hl. now rewrite HW.
Qed.

End MoreEngineProperties.

(** ** The further scenarios, checked *)

Ltac wf_by_computation :=
  unfold wf_state, wf_ndarray; splits; try reflexivity;
  try (repeat (apply Forall_cons || apply Forall_nil); reflexivity);
  vm_compute; lia.

Lemma all_fixed_wf : wf_state Extremes.all_fixed.
Proof. wf_by_computation. Qed.

Lemma none_fixed_wf : wf_state Extremes.none_fixed.
Proof. wf_by_computation. Qed.

Lemma single_wf : wf_state Extremes.single.
Proof. wf_by_computation. Qed.

Lemma narrow_wf : wf_state Extremes.narrow.
Proof. wf_by_computation. Qed.

Lemma constructed_mesh_is_in_bounds_witness :
  (length (fst (w_augments_idx Scenario.fresh)),
   length (snd (w_augments_idx Scenario.fresh))) = (2, 1) /\
  Forall (fun z => (0 <= z < 2)%Z) (fst (w_augments_idx Scenario.fresh)) /\
  Forall (fun z => (0 <= z < 2)%Z /\ (1 <= z)%Z)
    (snd (w_augments_idx Scenario.fresh)).
Proof.
  destruct (@constructed_mesh_is_in_bounds _ _ Scenario.data0
              Scenario.w_augments0 None 2 Scenario.W0 Scenario.H0
              Scenario.fresh scenario_constructed)
    as (Hshape & Hrows & Hcols & _).
  splits; assumption.
Defined.

Lemma update_w_at_the_extremes_witness :
  (exists st',
     _update_w Extremes.all_fixed = Ok st' /\ W st' = Extremes.full_augments) /\
  (exists st',
     _update_w Extremes.none_fixed = Ok st' /\
     get (W st') 0 1 =
     mul (get Scenario.W0 0 1)
         (div (W_numerator Scenario.data0 Scenario.W0 Scenario.H0 (Scenario.q 1 5) 0 1)
              (W_denominator Scenario.W0 Scenario.H0 (Scenario.q 1 5) 0 1))).
Proof.
  split.
  - destruct (@update_w_at_the_extremes _ _ Extremes.all_fixed
                (Scenario.q 1 5) all_fixed_wf eq_refl) as (st' & Hs & _ & Hall).
    exists st'. split; [exact Hs|]. exact (Hall eq_refl).
  - destruct (@update_w_at_the_extremes _ _ Extremes.none_fixed
                (Scenario.q 1 5) none_fixed_wf eq_refl) as (st' & Hs & Hnone & _).
    exists st'. split; [exact Hs|].
    apply (Hnone eq_refl 0 1); vm_compute; lia.
Defined.

Lemma shape_consistency_is_invariant_witness :
  exists st',
    run [UpdateW; UpdateH; UpdateH; UpdateW] Scenario.running = Ok st' /\
    wf_state st' /\ shape (W st') = (2, 2) /\ shape (H st') = (2, 3).
Proof.
  destruct (@shape_consistency_is_invariant _ _
              [UpdateW; UpdateH; UpdateH; UpdateW] Scenario.running
              (Scenario.q 1 5) (Scenario.q 1 5) running_wf eq_refl eq_refl)
    as (st' & Hr & Hwf & HsW & HsH & _).
  exists st'. splits; assumption.
Defined.

Lemma update_h_treats_samples_independently_witness :
  exists st1' st2',
    _update_h Scenario.running = Ok st1' /\
    _update_h Extremes.single = Ok st2' /\
    get (H st1') 0 0 = get (H st2') 0 0 /\
    get (H st1') 1 0 = get (H st2') 1 0.
Proof.
  assert (Hdata : forall d, d < 2 ->
            get Scenario.data0 d 0 = get Extremes.one_sample d 0)
    by (intros [|[|d]] Hd; [reflexivity|reflexivity|lia]).
  assert (HH : forall l, l < 2 ->
            get Scenario.H0 l 0 = get Extremes.one_sample_H l 0)
    by (intros [|[|l]] Hl; [reflexivity|reflexivity|lia]).
  assert (Hj1 : 0 < 3) by lia.
  assert (Hj2 : 0 < 1) by lia.
  destruct (@update_h_treats_samples_independently _ _
              Scenario.running Extremes.single
              (Scenario.q 1 5) (Scenario.q 1 7) (Scenario.q 1 5) 0 0
              running_wf single_wf eq_refl eq_refl eq_refl eq_refl eq_refl
              Hj1 Hj2 Hdata HH) as (st1' & st2' & Hs1 & Hs2 & Heq).
  exists st1', st2'. splits; try assumption; apply Heq; vm_compute; lia.
Defined.

Lemma update_w_treats_features_independently_witness :
  exists st1' st2',
    _update_w Scenario.running = Ok st1' /\
    _update_w Extremes.narrow = Ok st2' /\
    get (W st1') 0 0 = get (W st2') 0 0 /\
    get (W st1') 0 1 = get (W st2') 0 1.
Proof.
  assert (Hdata : forall n, n < 3 ->
            get Scenario.data0 0 n = get Extremes.one_feature 0 n)
    by (intros [|[|[|n]]] Hn; [reflexivity|reflexivity|reflexivity|lia]).
  assert (HW : forall l, l < 2 ->
            get Scenario.W0 0 l = get Extremes.one_feature_W 0 l)
    by (intros [|[|l]] Hl; [reflexivity|reflexivity|lia]).
  assert (Hwa : forall b, b < 1 ->
            get Scenario.w_augments0 0 b = get Extremes.one_feature_augments 0 b)
    by (intros [|b] Hb; [reflexivity|lia]).
  assert (Hi1 : 0 < 2) by lia.
  assert (Hi2 : 0 < 1) by lia.
  destruct (@update_w_treats_features_independently _ _
              Scenario.running Extremes.narrow (Scenario.q 1 5) 0 0
              running_wf narrow_wf eq_refl eq_refl eq_refl eq_refl
              Hi1 Hi2 Hdata HW Hwa) as (st1' & st2' & Hs1 & Hs2 & Heq).
  exists st1', st2'. splits; try assumption; apply Heq; vm_compute; lia.
Defined.

(** ** Classes of scalars that the update rules preserve *)

Section Closure.

Context {F : Type} {A : Arith F}.

(** [P] is a class of scalars closed under the operations of the rules;
    [Pd] is the class the denominators fall in. *)
Variables (P Pd : F -> Prop).

Hypothesis P_zero : P (lit 0%Q).
Hypothesis P_two : P (lit 2%Q).
Hypothesis P_three : P (lit 3%Q).
Hypothesis P_increase : P (lit 1.1%Q).
Hypothesis P_add : forall a b, P a -> P b -> P (add a b).
Hypothesis P_mul : forall a b, P a -> P b -> P (mul a b).
Hypothesis P_pow : forall a n, P a -> P (pow a n).
Hypothesis Pd_floor : forall a, P a -> Pd (add a (lit 1e-9%Q)).
Hypothesis P_div : forall a b, P a -> Pd b -> P (div a b).

Lemma psum_closed (n : nat) (f : nat -> F) :
  (forall k, P (f k)) -> P (psum n f).
Proof using P_zero P_add.
  intros Hf. unfold psum.
  assert (Hacc : forall (l : list nat) (acc : F),
             P acc -> P (fold_left add (map f l) acc)).
  { induction l as [|k l IH]; intros acc Hacc; simpl; [exact Hacc|].
    apply IH. now apply P_add. }
  apply Hacc. exact P_zero.
Qed.

Lemma get_closed (M : @ndarray F) :
  all_entries P M -> forall i j, P (get M i j).
Proof using P_zero.
  intros HM i j. unfold get, all_entries in *.
  assert (Hrow : Forall P (nth i (rows M) [])).
  { destruct (Nat.lt_ge_cases i (length (rows M))) as [Hi|Hi].
    - rewrite Forall_forall in HM. apply HM. now apply nth_In.
    - rewrite nth_overflow by exact Hi. constructor. }
  destruct (Nat.lt_ge_cases j (length (nth i (rows M) []))) as [Hj|Hj].
  - rewrite Forall_forall in Hrow. apply Hrow. now apply nth_In.
  - rewrite nth_overflow by exact Hj. exact P_zero.
Qed.

Lemma all_entries_tabulated (Q : F -> Prop) (n m : nat) (f : nat -> nat -> F) :
  (forall i j, i < n -> j < m -> Q (f i j)) -> all_entries Q (array n m f).
Proof using Type.
  intros Hf. unfold all_entries, array, tabulate. simpl.
  apply Forall_forall. intros r Hr.
  apply in_map_iff in Hr. destruct Hr as (i & <- & Hi). apply in_seq in Hi.
  apply Forall_forall. intros x Hx.
  apply in_map_iff in Hx. destruct Hx as (j & <- & Hj). apply in_seq in Hj.
  apply Hf; lia.
Qed.

Lemma H_rule_closed (data0 W0 H0 : @ndarray F) (l : F) (i j : nat) :
  P l -> all_entries P data0 -> all_entries P W0 -> all_entries P H0 ->
  P (mul (get H0 i j)
         (div (H_numerator data0 W0 H0 l i j) (H_denominator W0 H0 l i j))).
Proof using P_zero P_two P_three P_add P_mul P_pow Pd_floor P_div.
  intros Hl Hd HW HH.
  apply P_mul; [now apply get_closed|]. apply P_div.
  - unfold H_numerator. apply P_add.
    + apply psum_closed. intros d. apply P_mul; now apply get_closed.
    + apply P_mul; [now apply P_mul|]. apply P_pow. now apply get_closed.
  - unfold H_denominator. apply Pd_floor. repeat apply P_add.
    + apply psum_closed. intros k. apply P_mul; [|now apply get_closed].
      apply psum_closed. intros d. apply P_mul; now apply get_closed.
    + apply P_mul; [now apply P_mul|]. apply P_pow. now apply get_closed.
    + apply P_mul; [exact Hl|now apply get_closed].
Qed.

Lemma W_rule_closed (data0 W0 H0 : @ndarray F) (l : F) (i j : nat) :
  P l -> all_entries P data0 -> all_entries P W0 -> all_entries P H0 ->
  P (mul (get W0 i j)
         (div (W_numerator data0 W0 H0 l i j) (W_denominator W0 H0 l i j))).
Proof using P_zero P_two P_three P_add P_mul P_pow Pd_floor P_div.
  intros Hl Hd HW HH.
  apply P_mul; [now apply get_closed|]. apply P_div.
  - unfold W_numerator. apply P_add.
    + apply psum_closed. intros n. apply P_mul; now apply get_closed.
    + apply P_mul; [now apply P_mul|]. apply P_pow. now apply get_closed.
  - unfold W_denominator. apply Pd_floor. repeat apply P_add.
    + apply psum_closed. intros k. apply P_mul; [now apply get_closed|].
      apply psum_closed. intros n. apply P_mul; now apply get_closed.
    + apply P_mul; [now apply P_mul|]. apply P_pow. now apply get_closed.
    + apply P_mul; [exact Hl|now apply get_closed].
Qed.

Lemma _update_h_closed (st : @ABNMF F) (lw lh : F) :
  wf_state st -> _lamb_W st = Some lw -> _lamb_H st = Some lh -> P lh ->
  all_entries P (data st) -> all_entries P (W st) -> all_entries P (H st) ->
  exists st', _update_h st = Ok st' /\ all_entries P (H st').
Proof using P_zero P_two P_three P_add P_mul P_pow Pd_floor P_div.
  intros Hwf Hlw Hlh Hl Hd HW HH.
  destruct Hwf as (_ & _ & _ & _ & HD & HsH & _).
  rewrite (_update_h_spec st HD HsH Hlw Hlh).
  eexists. split; [reflexivity|]. simpl.
  unfold spec_updateH. apply all_entries_tabulated. intros i j _ _.
  now apply H_rule_closed.
Qed.

Lemma _update_w_closed (st : @ABNMF F) (lw : F) :
  wf_state st -> _lamb_W st = Some lw -> P lw ->
  all_entries P (data st) -> all_entries P (W st) -> all_entries P (H st) ->
  all_entries P (w_augments st) ->
  exists st', _update_w st = Ok st' /\ all_entries P (W st').
Proof using P_zero P_two P_three P_add P_mul P_pow Pd_floor P_div.
  intros Hwf Hlw Hl Hd HW HH Hwa.
  rewrite (_update_w_spec Hwf Hlw).
  eexists. split; [reflexivity|]. simpl.
  unfold spec_updateW. apply all_entries_tabulated. intros i j _ _.
  destruct ((_ <=? _) && (_ <? _)); [now apply get_closed|].
  now apply W_rule_closed.
Qed.

Lemma do_step_closed (s : step) (st : @ABNMF F) :
  wf_state st -> closed_state P st ->
  exists st', do_step s st = Ok st' /\ wf_state st' /\ closed_state P st'.
Proof using P_zero P_two P_three P_increase P_add P_mul P_pow Pd_floor P_div.
  intros Hwf (Hd & HW & HH & Hwa & lw & lh & Hlw & Hlh & Hpw & Hph).
  destruct (do_step_returns s st Hlw Hlh)
    as (st1 & Hs1 & Hk & Hlw1 & Hlh1 & HkW & HkH).
  exists st1. split; [exact Hs1|]. split; [exact (kept_wf_state Hk Hwf)|].
  pose proof Hk as (Hkd & _ & Hkwa & _).
  unfold closed_state. rewrite Hkd, Hkwa. destruct s; simpl in *.
  - destruct (_update_w_closed Hwf Hlw Hpw Hd HW HH Hwa) as (st' & Hs & HW').
    assert (st1 = st') by congruence. subst st1.
    rewrite (HkH eq_refl). splits; auto. now exists lw, lh.
  - destruct (_update_h_closed Hwf Hlw Hlh Hph Hd HW HH) as (st' & Hs & HH').
    assert (st1 = st') by congruence. subst st1.
    rewrite (HkW eq_refl). splits; auto.
    exists (mul _LAMB_INCREASE_W lw), (mul _LAMB_INCREASE_H lh).
    splits; auto; now apply P_mul.
Qed.

Lemma run_closed (ss : list step) (st : @ABNMF F) :
  wf_state st -> closed_state P st ->
  exists st', run ss st = Ok st' /\ wf_state st' /\ closed_state P st'.
Proof using P_zero P_two P_three P_increase P_add P_mul P_pow Pd_floor P_div.
  revert st. induction ss as [|s ss IH]; intros st Hwf Hc.
  - exists st. simpl. now splits.
  - destruct (do_step_closed s Hwf Hc) as (st1 & Hs & Hwf1 & Hc1).
    destruct (IH st1 Hwf1 Hc1) as (st' & Hr & Hwf' & Hc').
    exists st'. simpl. rewrite Hs. simpl. now splits.
Qed.

End Closure.

(** ** Entries that a product by anything keeps in their class *)

Section Absorbing.

Context {F : Type} {A : Arith F}.

(** [L] is a class of scalars that a product stays in, whatever the other
    factor is (zero, in exact arithmetic). *)
Variable L : F -> Prop.

Hypothesis L_mul : forall a b, L a -> L (mul a b).

Lemma do_step_locked (s : step) (st : @ABNMF F) (lw lh : F) :
  wf_state st -> _lamb_W st = Some lw -> _lamb_H st = Some lh ->
  exists st', do_step s st = Ok st' /\ locked L st st'.
Proof using L_mul.
  intros Hwf Hlw Hlh. destruct s; simpl.
  - rewrite (_update_w_spec Hwf Hlw). eexists. split; [reflexivity|].
    split; simpl; [auto|].
    intros i j Hi Hj Hz. unfold spec_updateW. rewrite get_array by lia.
    destruct (Nat.leb_spec (ncols (W st) - ncols (w_augments st)) j); [lia|].
    simpl. now apply L_mul.
  - destruct Hwf as (_ & _ & _ & _ & HD & HsH & _).
    rewrite (_update_h_spec st HD HsH Hlw Hlh). eexists. split; [reflexivity|].
    split; simpl; [|auto].
    intros i j Hi Hj Hz. unfold spec_updateH. rewrite get_array by assumption.
    now apply L_mul.
Qed.

Lemma run_locked (ss : list step) (st : @ABNMF F) (lw lh : F) :
  wf_state st -> _lamb_W st = Some lw -> _lamb_H st = Some lh ->
  exists st', run ss st = Ok st' /\ locked L st st'.
Proof using L_mul.
  revert st lw lh. induction ss as [|s ss IH]; intros st lw lh Hwf Hlw Hlh.
  - exists st. simpl. split; [reflexivity|]. split; auto.
  - destruct (do_step_locked s Hwf Hlw Hlh) as (st1 & Hs & HzH & HzW).
    destruct (do_step_returns s st Hlw Hlh)
      as (st1' & Hs' & Hk & Hlw1 & Hlh1 & _).
    assert (st1' = st1) by congruence. subst st1'.
    destruct (IH st1 _ _ (kept_wf_state Hk Hwf) Hlw1 Hlh1)
      as (st' & Hr & HzH' & HzW').
    exists st'. simpl. rewrite Hs. simpl. split; [exact Hr|].
    destruct Hk as (_ & _ & Hwa & _ & _ & _ & HsW & HsH & _).
    unfold nrows, ncols in *. split.
    + intros i j Hi Hj Hz. apply HzH'; [now rewrite HsH|now rewrite HsH|].
      now apply HzH.
    + intros i j Hi Hj Hz.
      apply HzW'; [now rewrite HsW|now rewrite HsW, Hwa|]. now apply HzW.
Qed.

End Absorbing.

(** ** Signs in binary64 *)

Lemma binary_round_aux_sign (s : bool) (m e : Z) (l : location) :
  match binary_round_aux prec emax s m e l with
  | S754_nan => True
  | S754_zero s' | S754_infinity s' | S754_finite s' _ _ => s' = s
  end.
Proof.
  unfold binary_round_aux.
  destruct (shr_fexp prec emax m e l) as [mrs' e'].
  destruct (shr_fexp prec emax _ e' loc_Exact) as [mrs'' e''].
  destruct (shr_m mrs''); [reflexivity| |exact I].
  destruct (Z.leb e'' _); reflexivity.
Qed.

Lemma sf_unsigned_round_aux (m e : Z) (l : location) :
  sf_unsigned (binary_round_aux prec emax false m e l) = true.
Proof.
  pose proof (binary_round_aux_sign false m e l) as Hs.
  destruct (binary_round_aux prec emax false m e l); simpl; subst; reflexivity.
Qed.

Lemma sf_unsigned_round (m : positive) (e : Z) :
  sf_unsigned (binary_round prec emax false m e) = true.
Proof.
  unfold binary_round. destruct (shl_align _ _ _) as [mz ez].
  apply sf_unsigned_round_aux.
Qed.

Lemma sf_unsigned_nonneg (x : spec_float) :
  sf_unsigned x = true -> sf_nonneg x = true.
Proof. destruct x as [s|s| |s m e]; simpl; auto. Qed.

Ltac by_sign Hx Hy :=
  simpl; try reflexivity; intros Hx Hy;
  try (apply negb_true_iff in Hx; subst);
  try (apply negb_true_iff in Hy; subst);
  try reflexivity; try discriminate.

Lemma sf_nonneg_mul (x y : spec_float) :
  sf_nonneg x = true -> sf_nonneg y = true -> sf_nonneg (SF64mul x y) = true.
Proof.
  destruct x as [sx|sx| |sx mx ex], y as [sy|sy| |sy my ey]; by_sign Hx Hy.
  apply sf_unsigned_nonneg, sf_unsigned_round_aux.
Qed.

Lemma sf_nonneg_add (x y : spec_float) :
  sf_nonneg x = true -> sf_nonneg y = true -> sf_nonneg (SF64add x y) = true.
Proof.
  destruct x as [sx|sx| |sx mx ex], y as [sy|sy| |sy my ey]; by_sign Hx Hy.
  - now destruct sx, sy.
  - simpl. apply sf_unsigned_nonneg, sf_unsigned_round.
Qed.

(** Adding a positive finite float clears the sign bit. *)
Lemma sf_unsigned_add_pos (x : spec_float) (m : positive) (e : Z) :
  sf_nonneg x = true ->
  sf_unsigned (SF64add x (S754_finite false m e)) = true.
Proof.
  destruct x as [sx|sx| |sx mx ex]; simpl; try reflexivity; intros Hx;
    try (apply negb_true_iff in Hx; subst); try reflexivity.
  simpl. apply sf_unsigned_round.
Qed.

Lemma sf_nonneg_div (x y : spec_float) :
  sf_nonneg x = true -> sf_unsigned y = true -> sf_nonneg (SF64div x y) = true.
Proof.
  destruct x as [sx|sx| |sx mx ex], y as [sy|sy| |sy my ey]; by_sign Hx Hy.
  destruct (SFdiv_core_binary prec emax (Z.pos mx) ex (Z.pos my) ey)
    as [[mz ez] lz].
  apply sf_unsigned_nonneg, sf_unsigned_round_aux.
Qed.

Lemma sf_zero_or_nan_mul (x y : spec_float) :
  sf_zero_or_nan x = true -> sf_zero_or_nan (SF64mul x y) = true.
Proof.
  destruct x as [sx|sx| |sx mx ex], y as [sy|sy| |sy my ey]; simpl;
    try reflexivity; discriminate.
Qed.

(** The comparisons of a float with zero, on its specification. *)
Lemma SFeqb_refl (x : spec_float) :
  SFeqb x x = match x with S754_nan => false | _ => true end.
Proof.
  destruct x as [s|s| |s m e]; try reflexivity; unfold SFeqb, SFcompare.
  - now destruct s.
  - destruct s; rewrite Z.compare_refl, Pos.compare_cont_refl; reflexivity.
Qed.

Lemma is_nan_spec (x : float) : is_nan x = true <-> Prim2SF x = S754_nan.
Proof.
  unfold is_nan. rewrite eqb_spec, SFeqb_refl.
  destruct (Prim2SF x); simpl; split; congruence.
Qed.

Lemma nonneg_or_nan_spec (x : float) :
  nonneg_or_nan x <-> sf_nonneg (Prim2SF x) = true.
Proof.
  unfold nonneg_or_nan. rewrite is_nan_spec, leb_spec.
  change (Prim2SF 0) with (S754_zero false).
  destruct (Prim2SF x) as [s|s| |s m e]; simpl; unfold SFleb; simpl.
  - tauto.
  - destruct s; simpl; intuition congruence.
  - tauto.
  - destruct s; simpl; intuition congruence.
Qed.

Lemma zero_or_nan_spec (x : float) :
  zero_or_nan x <-> sf_zero_or_nan (Prim2SF x) = true.
Proof.
  unfold zero_or_nan. rewrite is_nan_spec, eqb_spec.
  change (Prim2SF 0) with (S754_zero false).
  destruct (Prim2SF x) as [s|s| |s m e]; simpl; unfold SFeqb; simpl.
  - tauto.
  - destruct s; simpl; intuition congruence.
  - tauto.
  - destruct s; simpl; intuition congruence.
Qed.

(** A float that is not negative is not below zero. *)
Lemma nonneg_or_nan_not_below (x : float) :
  nonneg_or_nan x -> (x <? 0)%float = false.
Proof.
  rewrite nonneg_or_nan_spec, ltb_spec.
  change (Prim2SF 0) with (S754_zero false).
  destruct (Prim2SF x) as [s|s| |s m e]; simpl; unfold SFltb; simpl;
    try reflexivity; destruct s; simpl; congruence.
Qed.


(** *** The operations of [binary64_arith] on floats that are not negative *)

Lemma float_nonneg_add (a b : float) :
  nonneg_or_nan a -> nonneg_or_nan b -> nonneg_or_nan (a + b)%float.
Proof.
  rewrite !nonneg_or_nan_spec, add_spec. apply sf_nonneg_add.
Qed.

Lemma float_nonneg_mul (a b : float) :
  nonneg_or_nan a -> nonneg_or_nan b -> nonneg_or_nan (a * b)%float.
Proof.
  rewrite !nonneg_or_nan_spec, mul_spec. apply sf_nonneg_mul.
Qed.

Lemma float_nonneg_div (a b : float) :
  nonneg_or_nan a -> unsigned_or_nan b -> nonneg_or_nan (a / b)%float.
Proof.
  unfold unsigned_or_nan. rewrite !nonneg_or_nan_spec, div_spec.
  apply sf_nonneg_div.
Qed.

Lemma float_nonneg_literal (x : float) :
  (0 <=? x)%float = true -> nonneg_or_nan x.
Proof. intros Hx. now left. Qed.

Lemma float_nonneg_pow (a : float) (n : nat) :
  nonneg_or_nan a -> nonneg_or_nan (float_pow a n).
Proof.
  intros Ha. induction n as [|n IH]; simpl.
  - now apply float_nonneg_literal.
  - now apply float_nonneg_mul.
Qed.

(** The floor [1e-9] keeps a denominator from being negative, and from
    being the negative zero. *)
Lemma float_floor (a : float) :
  nonneg_or_nan a -> unsigned_or_nan (a + float_lit 1e-9%Q)%float.
Proof.
  unfold unsigned_or_nan. rewrite nonneg_or_nan_spec, add_spec.
  change (Prim2SF (float_lit 1e-9%Q))
    with (S754_finite false 4835703278458517 (-82)).
  apply sf_unsigned_add_pos.
Qed.

Lemma float_zero_mul (a b : float) : zero_or_nan a -> zero_or_nan (a * b)%float.
Proof.
  rewrite !zero_or_nan_spec, mul_spec. apply sf_zero_or_nan_mul.
Qed.

Lemma all_entries_impl {F : Type} {A : Arith F} (P Q : F -> Prop)
    (M : @ndarray F) :
  (forall x, P x -> Q x) -> all_entries P M -> all_entries Q M.
Proof.
  intros HPQ HM. unfold all_entries in *.
  eapply Forall_impl; [|exact HM]. intros r Hr.
  eapply Forall_impl; [|exact Hr]. exact HPQ.
Qed.

(** ** The schedule of the multipliers *)

Section Schedule.

Context {F : Type} {A : Arith F}.

Variable frobenius_norm : @ndarray F -> @ndarray F -> @ndarray F -> F.


End Schedule.

(** ** What binary64 keeps of non-negativity *)

Section Binary64.

Implicit Types (st : @ABNMF float).

Lemma float_nonneg_zero : nonneg_or_nan (lit 0%Q).
Proof. now left. Qed.

Lemma float_nonneg_two : nonneg_or_nan (lit 2%Q).
Proof. now left. Qed.

Lemma float_nonneg_three : nonneg_or_nan (lit 3%Q).
Proof. now left. Qed.

Lemma float_nonneg_increase : nonneg_or_nan (lit 1.1%Q).
Proof. now left. Qed.


(** X1: in binary64, if no entry of data, W, H and the augments is
    negative and lambda_W is not negative, no entry of the updated W is
    negative: every entry is non-negative or NaN. *)
Theorem update_w_nonnegative_or_nan st (lw : float) :
  wf_state st -> _lamb_W st = Some lw -> nonneg_or_nan lw ->
  all_entries nonneg_or_nan (data st) -> all_entries nonneg_or_nan (W st) ->
  all_entries nonneg_or_nan (H st) ->
  all_entries nonneg_or_nan (w_augments st) ->
  exists st',
    _update_w st = Ok st' /\
    all_entries nonneg_or_nan (W st') /\
    all_entries (fun x => (x <? 0)%float = false) (W st').
Proof.
  intros Hwf Hlw Hpos Hd HW HH Hwa.
  destruct (@_update_w_closed float binary64_arith nonneg_or_nan unsigned_or_nan
              float_nonneg_zero float_nonneg_two float_nonneg_three
              float_nonneg_add float_nonneg_mul float_nonneg_pow
              float_floor float_nonneg_div st lw Hwf Hlw Hpos Hd HW HH Hwa)
    as (st' & Hs & Hnn).
  exists st'. splits; auto.
  exact (@all_entries_impl _ _ _ _ _ nonneg_or_nan_not_below Hnn).
Qed.

(** X2: in binary64, "never negative" is an invariant: if no entry of
    data, W, H and the augments and neither multiplier is negative, every
    sequence of update calls returns and leaves no negative entry in W or
    H and no negative multiplier (entries may become NaN, multipliers
    infinite). *)
Theorem never_negative_is_invariant (ss : list step) st :
  wf_state st -> closed_state nonneg_or_nan st ->
  exists st',
    run ss st = Ok st' /\ closed_state nonneg_or_nan st' /\
    all_entries (fun x => (x <? 0)%float = false) (W st') /\
    all_entries (fun x => (x <? 0)%float = false) (H st').
Proof.
  intros Hwf Hc.
  destruct (@run_closed float binary64_arith nonneg_or_nan unsigned_or_nan
              float_nonneg_zero float_nonneg_two float_nonneg_three
              float_nonneg_increase
              float_nonneg_add float_nonneg_mul float_nonneg_pow
              float_floor float_nonneg_div ss st Hwf Hc)
    as (st' & Hr & _ & Hc').
  exists st'. splits; auto.
  - destruct Hc' as (_ & HW & _).
    exact (@all_entries_impl _ _ _ _ _ nonneg_or_nan_not_below HW).
  - destruct Hc' as (_ & _ & HH & _).
    exact (@all_entries_impl _ _ _ _ _ nonneg_or_nan_not_below HH).
Qed.

(** X3: in binary64, zeros of H are locked: through any sequence of update
    calls, an entry of H that is zero stays zero or becomes NaN (when its
    quotient is infinite or NaN); it never becomes a non-zero number. *)
Theorem zeros_of_H_stay_zero_or_nan (ss : list step) st (lw lh : float) :
  wf_state st -> _lamb_W st = Some lw -> _lamb_H st = Some lh ->
  exists st',
    run ss st = Ok st' /\
    forall i j, i < nrows (H st) -> j < ncols (H st) ->
      zero_or_nan (get (H st) i j) -> zero_or_nan (get (H st') i j).
Proof.
  intros Hwf Hlw Hlh.
  destruct (@run_locked float binary64_arith zero_or_nan float_zero_mul
              ss st lw lh Hwf Hlw Hlh) as (st' & Hr & HzH & _).
  exists st'. split; [exact Hr|exact HzH].
Qed.

(** X4: in binary64, zeros of W outside the augmented columns are locked:
    through any sequence of update calls, an entry of W in a column below
    K - A_w that is zero stays zero or becomes NaN. *)
Theorem zeros_of_W_stay_zero_or_nan (ss : list step) st (lw lh : float) :
  wf_state st -> _lamb_W st = Some lw -> _lamb_H st = Some lh ->
  exists st',
    run ss st = Ok st' /\
    forall i j, i < nrows (W st) ->
      j < ncols (W st) - ncols (w_augments st) ->
      zero_or_nan (get (W st) i j) -> zero_or_nan (get (W st') i j).
Proof.
  intros Hwf Hlw Hlh.
  destruct (@run_locked float binary64_arith zero_or_nan float_zero_mul
              ss st lw lh Hwf Hlw Hlh) as (st' & Hr & _ & HzW).
  exists st'. split; [exact Hr|exact HzW].
Qed.

End Binary64.

(** ** The binary64 scenarios, checked *)

Local Set Warnings "-inexact-float,-abstract-large-number".

Lemma machine_fresh_wf : wf_state Machine.fresh.
Proof. wf_by_computation. Qed.

Lemma machine_running_wf : wf_state Machine.running.
Proof. exact machine_fresh_wf. Qed.


Lemma machine_sparse_wf : wf_state Machine.sparse.
Proof. wf_by_computation. Qed.

Ltac entries_by_computation :=
  unfold all_entries; simpl;
  repeat (apply Forall_cons || apply Forall_nil); try (left; reflexivity);
  reflexivity.


Lemma machine_running_closed : closed_state nonneg_or_nan Machine.running.
Proof.
  unfold closed_state. splits; try entries_by_computation.
  exists (Machine.fl 1 5), (Machine.fl 1 5). splits; try reflexivity;
    left; reflexivity.
Qed.





Lemma update_w_nonnegative_or_nan_witness :
  exists st',
    _update_w Machine.running = Ok st' /\
    all_entries nonneg_or_nan (W st') /\
    all_entries (fun x => (x <? 0)%float = false) (W st').
Proof.
  destruct machine_running_closed as (Hd & HW & HH & Hwa & _).
  exact (@update_w_nonnegative_or_nan Machine.running (Machine.fl 1 5)
           machine_running_wf eq_refl (or_introl eq_refl) Hd HW HH Hwa).
Defined.

Lemma never_negative_is_invariant_witness :
  exists st',
    run [UpdateW; UpdateH; UpdateW; UpdateH] Machine.running = Ok st' /\
    closed_state nonneg_or_nan st' /\
    all_entries (fun x => (x <? 0)%float = false) (W st') /\
    all_entries (fun x => (x <? 0)%float = false) (H st').
Proof.
  exact (@never_negative_is_invariant [UpdateW; UpdateH; UpdateW; UpdateH]
           Machine.running machine_running_wf machine_running_closed).
Defined.

Lemma zeros_of_H_stay_zero_or_nan_witness :
  exists st',
    run [UpdateW; UpdateH; UpdateW; UpdateH] Machine.sparse = Ok st' /\
    zero_or_nan (get (H st') 0 1) /\ zero_or_nan (get (H st') 1 0) /\
    zero_or_nan (get (H st') 1 2).
Proof.
  destruct (@zeros_of_H_stay_zero_or_nan [UpdateW; UpdateH; UpdateW; UpdateH]
              Machine.sparse (Machine.fl 1 5) (Machine.fl 1 5)
              machine_sparse_wf eq_refl eq_refl) as (st' & Hr & Hz).
  exists st'. split; [exact Hr|].
  splits; apply Hz; try (vm_compute; lia); left; reflexivity.
Defined.

Lemma zeros_of_W_stay_zero_or_nan_witness :
  exists st',
    run [UpdateW; UpdateH; UpdateW; UpdateH] Machine.sparse = Ok st' /\
    zero_or_nan (get (W st') 0 0).
Proof.
  destruct (@zeros_of_W_stay_zero_or_nan [UpdateW; UpdateH; UpdateW; UpdateH]
              Machine.sparse (Machine.fl 1 5) (Machine.fl 1 5)
              machine_sparse_wf eq_refl eq_refl) as (st' & Hr & Hz).
  exists st'. split; [exact Hr|].
  apply Hz; try (vm_compute; lia); left; reflexivity.
Defined.
